(** * Stale-attachments doctor check (internal/doctor/stale_check.go)

    A shallow embedding of the staleness probe: the timestamp parser
    [parseTimestamp], the anchor resolver [checkBeadsDirWithContext], the
    per-rig walk [checkRig] and the aggregating entry point [Run].

    The calls that leave the file (the clock, rig discovery, globbing, the
    record store, Go's [time.Parse], the package's [formatDuration]) are
    fields of a [World]; the code is a state-passing program over a tick
    counter for the clock and a log of the external calls it made. *)

From Stdlib Require Import ZArith List String Ascii Bool Lia DecimalString.
Import ListNotations.

Open Scope string_scope.
Open Scope Z_scope.

(** ** Go's [time] package, as far as the check uses it *)

Module GoTime.

(** [time.Duration] is an [int64] count of nanoseconds. *)
Definition Duration := Z.

Definition minDuration : Duration := - 2 ^ 63.
Definition maxDuration : Duration := 2 ^ 63 - 1.

(** Two's-complement wrap-around of [int64] arithmetic. *)
Definition wrap64 (z : Z) : Z := (z + 2 ^ 63) mod 2 ^ 64 - 2 ^ 63.

(** [a + b] and [-a] on [time.Duration]. *)
Definition dur_add (a b : Duration) : Duration := wrap64 (a + b).
Definition dur_neg (a : Duration) : Duration := wrap64 (- a).

Definition Nanosecond : Duration := 1.
Definition Second : Duration := 1000000000.
Definition Hour : Duration := 3600 * Second.

(** A [time.Time] is an instant, counted in nanoseconds from the zero
    value [time.Time{}]; the instants the check meets (the clock, a
    parsed year 0000-9999, the clock moved by one [Duration]) are far
    inside what a [Time] holds, so [Add] does not wrap. *)
Definition Time := Z.

Definition zeroTime : Time := 0.

Definition Add (t : Time) (d : Duration) : Time := t + d.

(** [t.Sub(u)]: the duration [t - u]; when it is more (or less) than a
    [Duration] can store, the maximum (or minimum) duration is returned
    instead. *)
Definition Sub (t u : Time) : Duration :=
  if t - u <? minDuration then minDuration
  else if maxDuration <? t - u then maxDuration
  else t - u.

Definition Before (t u : Time) : bool := t <? u.

(** The layouts handed to [time.Parse]. *)
Definition RFC3339 : string := "2006-01-02T15:04:05Z07:00".
Definition layoutNoZone : string := "2006-01-02T15:04:05".
Definition layoutDateOnly : string := "2006-01-02".

End GoTime.

Import GoTime.

(** ** Values returned together with an [error] *)

Inductive result (A : Type) : Type :=
| Ok (a : A)
| Err (msg : string).

Arguments Ok {A} a.
Arguments Err {A} msg.

Definition is_err {A : Type} (r : result A) : bool :=
  match r with
  | Ok _ => false
  | Err _ => true
  end.

(** ** The record store's data (package [beads]) *)

Module Beads.

Record Issue : Type := mkIssue {
  ID : string;
  Title : string;
  Description : string;
  Status : string;
  Assignee : string;
  UpdatedAt : string
}.

Record AttachmentFields : Type := mkAttachment {
  AttachedMolecule : string
}.

Record ListOptions : Type := mkListOptions {
  opt_Status : string;
  opt_Priority : Z
}.

Definition StatusPinned : string := "pinned".

End Beads.

Import Beads.

(** ** The check's own data *)

Inductive CheckStatus : Type :=
| StatusOK
| StatusWarning
| StatusError.

Record CheckResult : Type := mkResult {
  Name : string;
  Status : CheckStatus;
  Message : string;
  Details : list string;
  FixHint : string
}.

Record CheckContext : Type := mkContext {
  TownRoot : string;
  RigName : string
}.

Record StaleAttachmentsCheck : Type := mkCheck {
  CheckName : string;
  CheckDescription : string;
  Threshold : Duration
}.

Definition DefaultStaleThreshold : Duration := 1 * Hour.

Definition NewStaleAttachmentsCheckWithThreshold (threshold : Duration)
  : StaleAttachmentsCheck :=
  {| CheckName := "stale-attachments";
     CheckDescription :=
       "Check for attached molecules that haven't been updated in too long";
     Threshold := threshold |}.

Definition NewStaleAttachmentsCheck : StaleAttachmentsCheck :=
  NewStaleAttachmentsCheckWithThreshold DefaultStaleThreshold.

Record StaleAttachment : Type := mkStale {
  Rig : string;
  PinnedBeadID : string;
  PinnedTitle : string;
  Assignee : string;
  MoleculeID : string;
  MoleculeTitle : string;
  LastUpdated : Time;
  StaleDuration : Duration
}.

(** ** The world outside the file *)

(** One external call, as logged by the program. *)
Inductive Event : Type :=
| EvDiscover (townRoot : string)
| EvGlob (pattern : string)
| EvList (dir : string)
| EvShow (dir id : string).

(** What the collaborators answer during one scan.  [clock n] is the
    reading of the [n]-th call of [time.Now]. *)
Record World : Type := mkWorld {
  clock : nat -> Time;
  discoverRigs : string -> result (list string);
  filepath_Join : list string -> string;
  filepath_Dir : string -> string;
  filepath_Base : string -> string;
  filepath_Glob : string -> result (list string);
  beads_List : string -> ListOptions -> result (list Issue);
  beads_Show : string -> string -> result Issue;
  ParseAttachmentFields : Issue -> option AttachmentFields;
  time_Parse : string -> string -> result Time;
  formatDuration : Duration -> string
}.

(** The program's state: how often the clock was read, and the external
    calls made so far, oldest first. *)
Record St : Type := mkSt {
  ticks : nat;
  trace : list Event
}.

Definition st0 : St := {| ticks := 0; trace := [] |}.

Definition M (A : Type) : Type := St -> A * St.

Definition ret {A : Type} (a : A) : M A := fun s => (a, s).

Definition bind {A B : Type} (m : M A) (f : A -> M B) : M B :=
  fun s => let (a, s') := m s in f a s'.

Notation "x <- m ;; k" := (bind m (fun x => k))
  (at level 61, m at next level, right associativity).

Definition emit (e : Event) : M unit :=
  fun s => (tt, {| ticks := ticks s; trace := (trace s ++ [e])%list |}).

(** [fmt.Sprintf("%d", n)]. *)
Definition fmt_d (n : Z) : string := NilZero.string_of_int (Z.to_int n).

(** A string given by its bytes. *)
Definition bytes (l : list Z) : string :=
  string_of_list_ascii (map (fun b => ascii_of_nat (Z.to_nat b)) l).

(** What stands between the two titles in the format string of the
    detail line (line 111 of the source), byte for byte: C3 A2 E2 80 A0
    E2 80 99, which is U+00E2 U+2020 U+2019 in UTF-8. *)
Definition arrow : string := bytes [195; 162; 226; 128; 160; 226; 128; 153].

(** The arrow U+2192 of the report's description, E2 86 92 in UTF-8. *)
Definition specArrow : string := bytes [226; 134; 146].

Section Check.

Variable w : World.

(** *** External calls *)

Definition time_Now : M Time :=
  fun s => (clock w (ticks s), {| ticks := S (ticks s); trace := trace s |}).

(** [time.Since(t)] is [time.Now().Sub(t)]. *)
Definition time_Since (t : Time) : M Duration :=
  now <- time_Now ;; ret (Sub now t).

Definition call_discoverRigs (townRoot : string) : M (result (list string)) :=
  _ <- emit (EvDiscover townRoot) ;; ret (discoverRigs w townRoot).

Definition call_Glob (pattern : string) : M (result (list string)) :=
  _ <- emit (EvGlob pattern) ;; ret (filepath_Glob w pattern).

Definition bd_List (dir : string) (opts : ListOptions)
  : M (result (list Issue)) :=
  _ <- emit (EvList dir) ;; ret (beads_List w dir opts).

Definition bd_Show (dir id : string) : M (result Issue) :=
  _ <- emit (EvShow dir id) ;; ret (beads_Show w dir id).

(** *** parseTimestamp *)

(** Returns Go's pair [(time.Time, error)]; the error is [None] for
    [nil]. *)
Definition parseTimestamp (ts : string) : Time * option string :=
  match time_Parse w RFC3339 ts with
  | Ok t => (t, None)
  | Err _ =>
    match time_Parse w layoutNoZone ts with
    | Ok t => (t, None)
    | Err _ =>
      match time_Parse w layoutDateOnly ts with
      | Ok t => (t, None)
      | Err _ => (zeroTime, Some ("unable to parse timestamp: " ++ ts))
      end
    end
  end.

(** *** checkBeadsDirWithContext *)

Variable c : StaleAttachmentsCheck.

(** The body of the loop over the pinned issues; [acc] is
    [(staleAttachments, checked)].  The counters [checked],
    [totalChecked] and [checkedCount] count elements of slices held in
    memory, far below the range of Go's [int], and are natural numbers
    here. *)
Definition checkPinned (parentDir : string) (cutoff : Time)
    (rigName : string) (pinned : Issue)
    (acc : list StaleAttachment * nat) : M (list StaleAttachment * nat) :=
  match ParseAttachmentFields w pinned with
  | None => ret acc
  | Some attachment =>
    if (AttachedMolecule attachment =? "")%string then ret acc
    else
      let checked := S (snd acc) in
      r <- bd_Show parentDir (AttachedMolecule attachment) ;;
      match r with
      | Err _ =>
        d <- time_Since cutoff ;;
        ret ((fst acc ++
               [{| Rig := rigName;
                   PinnedBeadID := ID pinned;
                   PinnedTitle := Title pinned;
                   Assignee := Beads.Assignee pinned;
                   MoleculeID := AttachedMolecule attachment;
                   MoleculeTitle := "(molecule not found)";
                   LastUpdated := zeroTime;
                   StaleDuration := dur_add d (Threshold c) |}])%list,
             checked)
      | Ok mol =>
        match parseTimestamp (UpdatedAt mol) with
        | (_, Some _) => ret (fst acc, checked)
        | (updatedAt, None) =>
          if (Beads.Status mol =? "in_progress")%string
             && Before updatedAt cutoff
          then
            d <- time_Since updatedAt ;;
            ret ((fst acc ++
                   [{| Rig := rigName;
                       PinnedBeadID := ID pinned;
                       PinnedTitle := Title pinned;
                       Assignee := Beads.Assignee pinned;
                       MoleculeID := ID mol;
                       MoleculeTitle := Title mol;
                       LastUpdated := updatedAt;
                       StaleDuration := d |}])%list,
                 checked)
          else ret (fst acc, checked)
        end
      end
  end.

Fixpoint scanPinned (parentDir : string) (cutoff : Time) (rigName : string)
    (pinnedIssues : list Issue) (acc : list StaleAttachment * nat)
  : M (list StaleAttachment * nat) :=
  match pinnedIssues with
  | [] => ret acc
  | pinned :: rest =>
    acc' <- checkPinned parentDir cutoff rigName pinned acc ;;
    scanPinned parentDir cutoff rigName rest acc'
  end.

Definition checkBeadsDirWithContext (workDir beadsDir : string)
    (cutoff : Time) (rigName workerName : string)
  : M (result (list StaleAttachment * nat)) :=
  let parentDir := filepath_Dir w beadsDir in
  r <- bd_List parentDir
         {| opt_Status := StatusPinned; opt_Priority := -1 |} ;;
  match r with
  | Err e => ret (Err e)
  | Ok pinnedIssues =>
    acc <- scanPinned parentDir cutoff rigName pinnedIssues ([], 0%nat) ;;
    ret (Ok acc)
  end.

Definition checkBeadsDir (townRoot beadsDir : string) (cutoff : Time)
  : M (result (list StaleAttachment * nat)) :=
  checkBeadsDirWithContext townRoot beadsDir cutoff "" "".

(** *** checkRig *)

(** The two loops of [checkRig] over the globbed store paths; [label]
    turns the directory's base name into the worker name ([crew/] is
    prepended for crew workers).  A store that fails is passed over. *)
Fixpoint scanStores (rigPath : string) (cutoff : Time) (rigName : string)
    (label : string -> string) (dirs : list string)
    (acc : list StaleAttachment * nat) : M (list StaleAttachment * nat) :=
  match dirs with
  | [] => ret acc
  | beadsPath :: rest =>
    let workerPath := filepath_Dir w beadsPath in
    let workerName := filepath_Base w workerPath in
    r <- checkBeadsDirWithContext rigPath beadsPath cutoff rigName
           (label workerName) ;;
    match r with
    | Err _ => scanStores rigPath cutoff rigName label rest acc
    | Ok (stale, checked) =>
      scanStores rigPath cutoff rigName label rest
        ((fst acc ++ stale)%list, (snd acc + checked)%nat)
    end
  end.

Definition polecatsPattern (townRoot rigName : string) : string :=
  let rigPath := filepath_Join w [townRoot; rigName] in
  let polecatsDir := filepath_Join w [rigPath; "polecats"] in
  filepath_Join w [polecatsDir; "*"; ".beads"].

Definition crewPattern (townRoot rigName : string) : string :=
  let rigPath := filepath_Join w [townRoot; rigName] in
  let crewDir := filepath_Join w [rigPath; "crew"] in
  filepath_Join w [crewDir; "*"; ".beads"].

Definition checkRig (townRoot rigName : string) (cutoff : Time)
  : M (result (list StaleAttachment * nat)) :=
  let rigPath := filepath_Join w [townRoot; rigName] in
  r <- call_Glob (polecatsPattern townRoot rigName) ;;
  match r with
  | Err e => ret (Err e)
  | Ok polecatDirs =>
    acc <- scanStores rigPath cutoff rigName (fun n => n) polecatDirs
             ([], 0%nat) ;;
    r' <- call_Glob (crewPattern townRoot rigName) ;;
    match r' with
    | Ok crewDirs =>
      acc' <- scanStores rigPath cutoff rigName
                (fun n => "crew/" ++ n) crewDirs acc ;;
      ret (Ok acc')
    | Err _ => ret (Ok acc)
    end
  end.

(** *** Run *)

(** The loop of [Run] over the rigs; a rig that fails is passed over. *)
Fixpoint scanRigs (townRoot : string) (cutoff : Time) (rigs : list string)
    (acc : list StaleAttachment * nat) : M (list StaleAttachment * nat) :=
  match rigs with
  | [] => ret acc
  | rigName :: rest =>
    r <- checkRig townRoot rigName cutoff ;;
    match r with
    | Err _ => scanRigs townRoot cutoff rest acc
    | Ok (stale, checked) =>
      scanRigs townRoot cutoff rest
        ((fst acc ++ stale)%list, (snd acc + checked)%nat)
    end
  end.

(** The rigs, then the town-level store. *)
Definition collect (townRoot : string) (cutoff : Time) (rigs : list string)
  : M (list StaleAttachment * nat) :=
  acc <- scanRigs townRoot cutoff rigs ([], 0%nat) ;;
  r <- checkBeadsDir townRoot (filepath_Join w [townRoot; ".beads"]) cutoff ;;
  match r with
  | Ok (townStale, townChecked) =>
    ret ((fst acc ++ townStale)%list, (snd acc + townChecked)%nat)
  | Err _ => ret acc
  end.

Definition detailLine (sa : StaleAttachment) : string :=
  let location := if (Rig sa =? "")%string then "town" else Rig sa in
  let assigneeInfo :=
    if (Assignee sa =? "")%string then ""
    else " (assignee: " ++ Assignee sa ++ ")" in
  location ++ ": " ++ PinnedTitle sa ++ " " ++ arrow ++ " "
    ++ MoleculeTitle sa ++ assigneeInfo
    ++ " (stale for " ++ formatDuration w (StaleDuration sa) ++ ")".

Definition fixHint : string :=
  "Check if polecats are stuck or crashed. Use 'gt witness nudge <polecat>' or 'gt polecat kill <name>' if needed".

(** The tail of [Run], from [if len(staleAttachments) > 0] on. *)
Definition render (staleAttachments : list StaleAttachment)
    (checkedCount : nat) : CheckResult :=
  match staleAttachments with
  | _ :: _ =>
    {| Name := CheckName c;
       Status := StatusWarning;
       Message :=
         fmt_d (Z.of_nat (List.length staleAttachments))
           ++ " stale attachment(s) found (no activity for >"
           ++ formatDuration w (Threshold c) ++ ")";
       Details := map detailLine staleAttachments;
       FixHint := fixHint |}
  | [] =>
    match checkedCount with
    | O =>
      {| Name := CheckName c;
         Status := StatusOK;
         Message := "No attachments to check";
         Details := [];
         FixHint := "" |}
    | S _ =>
      {| Name := CheckName c;
         Status := StatusOK;
         Message :=
           "Checked " ++ fmt_d (Z.of_nat checkedCount)
             ++ " attachment(s), none stale";
         Details := [];
         FixHint := "" |}
    end
  end.

(** Lines 78-98 of [Run]: read the clock, set the cutoff, scan. *)
Definition scanAll (townRoot : string) (rigs : list string)
  : M (list StaleAttachment * nat) :=
  now <- time_Now ;;
  let cutoff := Add now (dur_neg (Threshold c)) in
  collect townRoot cutoff rigs.

(** The rigs to check: the named one, or what discovery finds. *)
Definition rigsToCheck (ctx : CheckContext) : M (result (list string)) :=
  if negb (RigName ctx =? "")%string then ret (Ok [RigName ctx])
  else call_discoverRigs (TownRoot ctx).

Definition Run (ctx : CheckContext) : M CheckResult :=
  r <- rigsToCheck ctx ;;
  match r with
  | Err e =>
    ret {| Name := CheckName c;
           Status := StatusError;
           Message := "Failed to discover rigs";
           Details := [e];
           FixHint := "" |}
  | Ok [] =>
    ret {| Name := CheckName c;
           Status := StatusOK;
           Message := "No rigs configured";
           Details := [];
           FixHint := "" |}
  | Ok rigs =>
    acc <- scanAll (TownRoot ctx) rigs ;;
    ret (render (fst acc) (snd acc))
  end.

End Check.

(** The guard of the loop in [checkBeadsDirWithContext]: the anchor
    declares a non-empty attachment reference. *)
Definition hasAttachment (w : World) (pinned : Issue) : bool :=
  match ParseAttachmentFields w pinned with
  | None => false
  | Some attachment => negb (AttachedMolecule attachment =? "")%string
  end.

(** Where a finding of a store scan comes from: one of the listed
    anchors that declare an attachment. *)
Definition fromAnchor (w : World) (rigName : string) (issues : list Issue)
    (f : StaleAttachment) : Prop :=
  exists pinned,
    In pinned issues /\ hasAttachment w pinned = true
    /\ PinnedBeadID f = ID pinned /\ PinnedTitle f = Title pinned
    /\ Rig f = rigName.

(** The detail line as the report describes it:
    [<location>: <anchor title> -> <unit title><assignee clause> (stale for
    <duration>)], the arrow being U+2192. *)
Definition detailFormat (location anchorTitle unitTitle assigneeClause
    duration : string) : string :=
  location ++ ": " ++ anchorTitle ++ " " ++ specArrow ++ " " ++ unitTitle
    ++ assigneeClause ++ " (stale for " ++ duration ++ ")".

Definition assigneeClause (assignee : string) : string :=
  " (assignee: " ++ assignee ++ ")".

(** Events by kind, for reading the log. *)
Definition isDiscover (e : Event) : bool :=
  match e with
  | EvDiscover _ => true
  | _ => false
  end.

Definition isStoreAccess (e : Event) : bool :=
  match e with
  | EvList _ | EvShow _ _ => true
  | _ => false
  end.

(** [m] only appends to the log, and never a discovery call. *)
Definition noDiscovery {A : Type} (m : M A) : Prop :=
  forall s, exists evs,
    trace (snd (m s)) = (trace s ++ evs)%list
    /\ Forall (fun e => isDiscover e = false) evs.

(** The state after one more logged call. *)
Definition logged (s : St) (e : Event) : St :=
  {| ticks := ticks s; trace := (trace s ++ [e])%list |}.

(** The clock never runs backwards (Go reads a monotonic clock). *)
Definition monotone (w : World) : Prop :=
  forall n m : nat, (n <= m)%nat -> clock w n <= clock w m.

(** The synthesized finding for an unresolvable reference, and the real
    one, as the two struct literals of the source build them. *)
Definition notFoundFinding (rigName : string) (pinned : Issue)
    (molecule : string) (d : Duration) : StaleAttachment :=
  {| Rig := rigName;
     PinnedBeadID := ID pinned;
     PinnedTitle := Title pinned;
     Assignee := Beads.Assignee pinned;
     MoleculeID := molecule;
     MoleculeTitle := "(molecule not found)";
     LastUpdated := zeroTime;
     StaleDuration := d |}.

Definition staleFinding (rigName : string) (pinned mol : Issue)
    (updatedAt : Time) (d : Duration) : StaleAttachment :=
  {| Rig := rigName;
     PinnedBeadID := ID pinned;
     PinnedTitle := Title pinned;
     Assignee := Beads.Assignee pinned;
     MoleculeID := ID mol;
     MoleculeTitle := Title mol;
     LastUpdated := updatedAt;
     StaleDuration := d |}.

(** ** Reading a scan as a contribution *)

(** What a scan that may fail contributes: its findings and count, or
    nothing when it returned an error. *)
Definition contrib (r : result (list StaleAttachment * nat))
  : list StaleAttachment * nat :=
  match r with
  | Ok x => x
  | Err _ => ([], 0%nat)
  end.

(** Appending findings and adding counts, as every loop of the file does
    with [append(..., stale...)] and [+= checked]. *)
Definition merge (acc x : list StaleAttachment * nat)
  : list StaleAttachment * nat :=
  ((fst acc ++ fst x)%list, (snd acc + snd x)%nat).

Definition isShow (e : Event) : bool :=
  match e with
  | EvShow _ _ => true
  | _ => false
  end.

(** The fetches among the logged calls. *)
Definition countShows (evs : list Event) : nat :=
  List.length (filter isShow evs).

(** Two states with the same clock position; the logs may differ. *)
Definition sameTicks (s s' : St) : Prop := ticks s = ticks s'.

(** The two kinds of finding the resolver builds: the placeholder for an
    unresolvable reference, and a unit last updated before the cutoff. *)
Definition placeholderOrOverdue (cutoff : Time) (f : StaleAttachment)
  : Prop :=
  (MoleculeTitle f = "(molecule not found)" /\ LastUpdated f = zeroTime)
  \/ LastUpdated f < cutoff.

(** No store lists an anchor with an attachment. *)
Definition nothingAttached (w : World) : Prop :=
  forall dir opts issues,
    beads_List w dir opts = Ok issues ->
    Forall (fun pinned => hasAttachment w pinned = false) issues.

(** ** The scan as the report describes it: one store after another *)

(** A store to scan: the arguments [checkRig] and [Run] hand to
    [checkBeadsDirWithContext]. *)
Record StoreRef : Type := mkStoreRef {
  ref_workDir : string;
  ref_beadsDir : string;
  ref_rig : string;
  ref_worker : string
}.

(** Run the resolver on each store in turn, continuing past a store that
    fails, and accumulate findings and checked-count. *)
Fixpoint scanEach (w : World) (c : StaleAttachmentsCheck) (cutoff : Time)
    (stores : list StoreRef) (acc : list StaleAttachment * nat)
  : M (list StaleAttachment * nat) :=
  match stores with
  | [] => ret acc
  | st :: rest =>
    r <- checkBeadsDirWithContext w c (ref_workDir st) (ref_beadsDir st)
           cutoff (ref_rig st) (ref_worker st) ;;
    scanEach w c cutoff rest (merge acc (contrib r))
  end.

(** The stores [checkRig] visits for a rig: none when the polecats
    pattern is rejected, else the polecats stores followed by the crew
    stores (none of these when the crew pattern is rejected). *)
Definition storesOfRig (w : World) (townRoot rigName : string)
  : list StoreRef :=
  let rigPath := filepath_Join w [townRoot; rigName] in
  match filepath_Glob w (polecatsPattern w townRoot rigName) with
  | Err _ => []
  | Ok polecatDirs =>
    (map (fun d => {| ref_workDir := rigPath; ref_beadsDir := d;
                      ref_rig := rigName;
                      ref_worker := filepath_Base w (filepath_Dir w d) |})
       polecatDirs
     ++ match filepath_Glob w (crewPattern w townRoot rigName) with
        | Ok crewDirs =>
          map (fun d => {| ref_workDir := rigPath; ref_beadsDir := d;
                           ref_rig := rigName;
                           ref_worker :=
                             "crew/" ++ filepath_Base w (filepath_Dir w d) |})
            crewDirs
        | Err _ => []
        end)%list
  end.

(** The town-level store, scanned without rig or worker. *)
Definition townStore (w : World) (townRoot : string) : StoreRef :=
  {| ref_workDir := townRoot;
     ref_beadsDir := filepath_Join w [townRoot; ".beads"];
     ref_rig := "";
     ref_worker := "" |}.

(** Every store of a scan, in the order visited: rig by rig, then the
    town store. *)
Definition allStores (w : World) (townRoot : string) (rigs : list string)
  : list StoreRef :=
  (flat_map (storesOfRig w townRoot) rigs ++ [townStore w townRoot])%list.

(** The listing of a store fails. *)
Definition listFails (w : World) (st : StoreRef) : Prop :=
  is_err (beads_List w (filepath_Dir w (ref_beadsDir st))
            {| opt_Status := StatusPinned; opt_Priority := -1 |}) = true.

(** [Run] got past resolving the rigs with the non-empty list [rigs],
    reaching state [s1]: a rig was named, or discovery found some. *)
Definition rigsResolved (w : World) (ctx : CheckContext) (s : St)
    (rigs : list string) (s1 : St) : Prop :=
  (RigName ctx <> "" /\ rigs = [RigName ctx] /\ s1 = s)
  \/ (RigName ctx = "" /\ rigs <> []
      /\ discoverRigs w (TownRoot ctx) = Ok rigs
      /\ s1 = logged s (EvDiscover (TownRoot ctx))).

(** The state in which the scan proper starts, the clock read once. *)
Definition ticked (s : St) : St :=
  {| ticks := S (ticks s); trace := trace s |}.

(** The cutoff [Run] computes from the clock reading in state [s]. *)
Definition cutoffAt (w : World) (c : StaleAttachmentsCheck) (s : St) : Time :=
  Add (clock w (ticks s)) (dur_neg (Threshold c)).

(** ** A small town, for running the check *)

Module Sample.

(** 2026-10-30T12:00:00Z; one clock reading per millisecond. *)
Definition now0 : Time := 63928958400 * Second.

Definition sample_clock (n : nat) : Time := now0 + Z.of_nat n * 1000000.

(** Paths are joined with a slash and split at the last one, which is
    what [filepath] does on clean absolute paths. *)
Fixpoint sample_Join (parts : list string) : string :=
  match parts with
  | [] => ""
  | [p] => p
  | p :: rest => p ++ "/" ++ sample_Join rest
  end.

Fixpoint splitLast (s : string) : option (string * string) :=
  match s with
  | EmptyString => None
  | String ch r =>
    match splitLast r with
    | Some (d, b) => Some (String ch d, b)
    | None => if Ascii.eqb ch "/"%char then Some ("", r) else None
    end
  end.

Definition sample_Dir (p : string) : string :=
  match splitLast p with
  | Some (d, _) => d
  | None => "."
  end.

Definition sample_Base (p : string) : string :=
  match splitLast p with
  | Some (_, b) => b
  | None => p
  end.

(** The attachment reference sits in the description, after a fixed
    key. *)
Definition key : string := "attached_molecule: ".

Definition sample_ParseAttachmentFields (i : Issue)
  : option AttachmentFields :=
  if String.prefix key (Description i)
  then Some {| AttachedMolecule :=
                 substring (String.length key)
                   (String.length (Description i) - String.length key)
                   (Description i) |}
  else None.

(** The timestamps the sample stores hold, per layout. *)
Definition sample_Parse (layout ts : string) : result Time :=
  if (layout =? RFC3339)%string then
    if (ts =? "2026-10-30T10:00:00Z")%string then Ok (63928951200 * Second)
    else if (ts =? "2026-10-30T11:30:00Z")%string
         then Ok (63928956600 * Second)
    else Err "cannot parse as RFC3339"
  else if (layout =? layoutNoZone)%string then
    if (ts =? "2026-10-30T10:00:00")%string then Ok (63928951200 * Second)
    else Err "cannot parse as date-time"
  else if (layout =? layoutDateOnly)%string then
    if (ts =? "2026-10-29")%string then Ok (63928828800 * Second)
    else if (ts =? "1700-01-01")%string then Ok (53615260800 * Second)
    else Err "cannot parse as date"
  else Err "unknown layout".

Definition anchor (id title assignee description : string) : Issue :=
  {| ID := id; Title := title; Description := description;
     Beads.Status := "pinned"; Beads.Assignee := assignee; UpdatedAt := "" |}.

Definition unit_ (id title status updatedAt : string) : Issue :=
  {| ID := id; Title := title; Description := "";
     Beads.Status := status; Beads.Assignee := ""; UpdatedAt := updatedAt |}.

Definition a_stuck : Issue :=
  anchor "pin-1" "alice hook" "alice" "attached_molecule: mol-1".
Definition a_plain : Issue := anchor "pin-2" "notes" "" "just notes".
Definition a_lost : Issue :=
  anchor "pin-3" "alice old hook" "" "attached_molecule: mol-404".
Definition a_garbled : Issue :=
  anchor "pin-4" "alice odd hook" "alice" "attached_molecule: mol-bad".
Definition a_done : Issue :=
  anchor "pin-5" "bob hook" "bob" "attached_molecule: mol-done".
Definition a_fresh : Issue :=
  anchor "pin-6" "bob second hook" "bob" "attached_molecule: mol-fresh".
Definition a_ancient : Issue :=
  anchor "pin-7" "town hook" "mayor" "attached_molecule: mol-old".
Definition a_empty : Issue :=
  anchor "pin-8" "empty hook" "" "attached_molecule: ".
Definition a_crew_stuck : Issue :=
  anchor "pin-9" "bob third hook" "bob" "attached_molecule: mol-1".

Definition m_stuck : Issue :=
  unit_ "mol-1" "build feature" "in_progress" "2026-10-30T10:00:00Z".
Definition m_garbled : Issue :=
  unit_ "mol-bad" "garbled" "in_progress" "not-a-date".
Definition m_done : Issue :=
  unit_ "mol-done" "shipped" "closed" "2026-10-29".
Definition m_fresh : Issue :=
  unit_ "mol-fresh" "review" "in_progress" "2026-10-30T11:30:00Z".
Definition m_ancient : Issue :=
  unit_ "mol-old" "charter" "in_progress" "1700-01-01".

Definition sample_List (dir : string) (opts : ListOptions)
  : result (list Issue) :=
  if (dir =? "/town/rig1/polecats/alice")%string
  then Ok [a_stuck; a_plain; a_lost; a_garbled]
  else if (dir =? "/town/rig1/crew/bob")%string
  then Ok [a_done; a_fresh; a_empty; a_crew_stuck]
  else if (dir =? "/town")%string then Ok [a_ancient]
  else Err "no beads database".

Definition sample_Show (dir id : string) : result Issue :=
  if (id =? "mol-1")%string then Ok m_stuck
  else if (id =? "mol-bad")%string then Ok m_garbled
  else if (id =? "mol-done")%string then Ok m_done
  else if (id =? "mol-fresh")%string then Ok m_fresh
  else if (id =? "mol-old")%string then Ok m_ancient
  else Err "issue not found".

Definition sample_Glob (pattern : string) : result (list string) :=
  if (pattern =? "/town/rig1/polecats/*/.beads")%string
  then Ok ["/town/rig1/polecats/alice/.beads"]
  else if (pattern =? "/town/rig1/crew/*/.beads")%string
  then Ok ["/town/rig1/crew/bob/.beads"]
  else Ok [].

(** A glob that rejects the polecats pattern only. *)
Definition polecatsFail_Glob (pattern : string) : result (list string) :=
  if (pattern =? "/town/rig1/polecats/*/.beads")%string
  then Err "syntax error in pattern"
  else sample_Glob pattern.

Definition sample_discoverRigs (townRoot : string) : result (list string) :=
  if (townRoot =? "/town")%string then Ok ["rig1"]
  else if (townRoot =? "/empty")%string then Ok []
  else Err "open: no such file or directory".

(** Durations print as whole seconds here. *)
Definition sample_formatDuration (d : Duration) : string :=
  fmt_d (d / Second) ++ "s".

Definition worldWith (glob : string -> result (list string)) : World :=
  {| clock := sample_clock;
     discoverRigs := sample_discoverRigs;
     filepath_Join := sample_Join;
     filepath_Dir := sample_Dir;
     filepath_Base := sample_Base;
     filepath_Glob := glob;
     beads_List := sample_List;
     beads_Show := sample_Show;
     ParseAttachmentFields := sample_ParseAttachmentFields;
     time_Parse := sample_Parse;
     formatDuration := sample_formatDuration |}.

Definition world : World := worldWith sample_Glob.

(** The same town with a discovery that finds no rig at all. *)
Definition worldNoRigs : World :=
  {| clock := sample_clock;
     discoverRigs := fun _ => Ok [];
     filepath_Join := sample_Join;
     filepath_Dir := sample_Dir;
     filepath_Base := sample_Base;
     filepath_Glob := sample_Glob;
     beads_List := sample_List;
     beads_Show := sample_Show;
     ParseAttachmentFields := sample_ParseAttachmentFields;
     time_Parse := sample_Parse;
     formatDuration := sample_formatDuration |}.
Definition worldPolecatsFail : World := worldWith polecatsFail_Glob.

(** A town whose only store holds anchors without a usable reference. *)
Definition plain_List (dir : string) (opts : ListOptions)
  : result (list Issue) :=
  if (dir =? "/town/rig1/polecats/alice")%string
  then Ok [a_plain; a_empty]
  else Err "no beads database".

Definition worldPlain : World :=
  {| clock := sample_clock;
     discoverRigs := sample_discoverRigs;
     filepath_Join := sample_Join;
     filepath_Dir := sample_Dir;
     filepath_Base := sample_Base;
     filepath_Glob := sample_Glob;
     beads_List := plain_List;
     beads_Show := sample_Show;
     ParseAttachmentFields := sample_ParseAttachmentFields;
     time_Parse := sample_Parse;
     formatDuration := sample_formatDuration |}.

(** A rougher town.  Its glob rejects a pattern with a bracket that is
    never closed, as [filepath.Glob] does with [ErrBadPattern]; discovery
    finds a directory with such a name next to the rigs.  [rig2] has crew
    workers only, [rig3] polecats only, and the polecat zed of [rig1] has
    no readable store. *)
Fixpoint hasOpenBracket (p : string) : bool :=
  match p with
  | EmptyString => false
  | String ch rest =>
    if Ascii.eqb ch "["%char then true else hasOpenBracket rest
  end.

Definition rough_Glob (pattern : string) : result (list string) :=
  if hasOpenBracket pattern then Err "syntax error in pattern"
  else if (pattern =? "/town/rig1/polecats/*/.beads")%string
  then Ok ["/town/rig1/polecats/alice/.beads";
           "/town/rig1/polecats/zed/.beads"]
  else if (pattern =? "/town/rig1/crew/*/.beads")%string
  then Ok ["/town/rig1/crew/bob/.beads"]
  else if (pattern =? "/town/rig2/crew/*/.beads")%string
  then Ok ["/town/rig2/crew/carol/.beads"]
  else if (pattern =? "/town/rig3/polecats/*/.beads")%string
  then Ok ["/town/rig3/polecats/dave/.beads"]
  else Ok [].

Definition rough_List (dir : string) (opts : ListOptions)
  : result (list Issue) :=
  if (dir =? "/town/rig2/crew/carol")%string then Ok [a_crew_stuck]
  else if (dir =? "/town/rig3/polecats/dave")%string then Ok [a_lost]
  else if (dir =? "/town/rig[/crew/bob")%string then Ok [a_crew_stuck]
  else sample_List dir opts.

Definition rough_discoverRigs (townRoot : string) : result (list string) :=
  if (townRoot =? "/town")%string then Ok ["rig["; "rig1"; "rig2"]
  else Err "open: no such file or directory".

Definition worldRough : World :=
  {| clock := sample_clock;
     discoverRigs := rough_discoverRigs;
     filepath_Join := sample_Join;
     filepath_Dir := sample_Dir;
     filepath_Base := sample_Base;
     filepath_Glob := rough_Glob;
     beads_List := rough_List;
     beads_Show := sample_Show;
     ParseAttachmentFields := sample_ParseAttachmentFields;
     time_Parse := sample_Parse;
     formatDuration := sample_formatDuration |}.

Definition check1h : StaleAttachmentsCheck := NewStaleAttachmentsCheck.

(** A threshold of 2^62 ns, about 146 years. *)
Definition checkHuge : StaleAttachmentsCheck :=
  NewStaleAttachmentsCheckWithThreshold (2 ^ 62).

Definition cutoff1h : Time := Add now0 (dur_neg (1 * Hour)).

(** The state after [Run] has read the clock once. *)
Definition st1 : St := {| ticks := 1; trace := [] |}.

End Sample.

(** * Properties *)

(** ** Arithmetic of durations *)

Lemma wrap64_in_range (z : Z) :
  minDuration <= z <= maxDuration -> wrap64 z = z.
Proof.
  unfold wrap64, minDuration, maxDuration. intros H.
  rewrite Z.mod_small by lia. lia.
Qed.

Lemma wrap64_range (z : Z) : minDuration <= wrap64 z <= maxDuration.
Proof.
  unfold wrap64, minDuration, maxDuration.
  pose proof (Z.mod_pos_bound (z + 2 ^ 63) (2 ^ 64) ltac:(lia)). lia.
Qed.

Lemma Sub_exact (t u : Time) :
  minDuration <= t - u <= maxDuration -> Sub t u = t - u.
Proof.
  unfold Sub. intros H.
  destruct (Z.ltb_spec (t - u) minDuration); [lia|].
  destruct (Z.ltb_spec maxDuration (t - u)); [lia|]. reflexivity.
Qed.

Lemma Sub_clamped_high (t u : Time) :
  maxDuration < t - u -> Sub t u = maxDuration.
Proof.
  unfold Sub. intros H.
  destruct (Z.ltb_spec (t - u) minDuration);
    [unfold minDuration, maxDuration in *; lia|].
  destruct (Z.ltb_spec maxDuration (t - u)); [reflexivity|lia].
Qed.

Lemma Sub_clamped_low (t u : Time) :
  t - u < minDuration -> Sub t u = minDuration.
Proof.
  unfold Sub. intros H.
  destruct (Z.ltb_spec (t - u) minDuration); [reflexivity|lia].
Qed.

Lemma Sub_range (t u : Time) : minDuration <= Sub t u <= maxDuration.
Proof.
  unfold Sub.
  destruct (Z.ltb_spec (t - u) minDuration);
    [unfold minDuration, maxDuration; lia|].
  destruct (Z.ltb_spec maxDuration (t - u));
    [unfold minDuration, maxDuration; lia|lia].
Qed.

(** The duration reported for an unresolvable reference, when the cutoff
    is [t0 - T] and nothing overflows. *)
Lemma synthesized_duration (t0 now : Time) (T : Duration) :
  0 < T -> t0 <= now -> (now - t0) + 2 * T <= maxDuration ->
  dur_add (Sub now (Add t0 (dur_neg T))) T = (now - t0) + 2 * T.
Proof.
  intros HT Hmono Hfit. unfold dur_add, dur_neg, Add.
  assert (Hneg : wrap64 (- T) = - T).
  { apply wrap64_in_range. unfold minDuration, maxDuration in *. lia. }
  rewrite Hneg.
  rewrite Sub_exact by (unfold minDuration, maxDuration in *; lia).
  rewrite wrap64_in_range by (unfold minDuration, maxDuration in *; lia).
  lia.
Qed.

(** ** Running the state-passing program *)

Ltac run :=
  cbv beta iota zeta delta
    [bind ret emit time_Since time_Now bd_Show bd_List call_Glob
     call_discoverRigs];
  cbn [fst snd ticks trace].

Lemma eqb_empty_false (x : string) : x <> "" -> (x =? "")%string = false.
Proof. intros H. destruct (String.eqb_spec x ""); congruence. Qed.

Lemma app_one_neq {A : Type} (l : list A) (x : A) : l <> (l ++ [x])%list.
Proof.
  intros H. apply (f_equal (@List.length A)) in H.
  rewrite List.length_app in H. cbn in H. lia.
Qed.

Section Resolver.

Variable w : World.
Variable c : StaleAttachmentsCheck.

(** An anchor without a usable reference leaves everything as it was:
    no count, no finding, no call. *)
Lemma checkPinned_no_attachment parentDir cutoff rigName pinned acc s :
  hasAttachment w pinned = false ->
  checkPinned w c parentDir cutoff rigName pinned acc s = (acc, s).
Proof.
  unfold hasAttachment, checkPinned. intros H.
  destruct (ParseAttachmentFields w pinned) as [att|]; [|reflexivity].
  destruct (AttachedMolecule att =? "")%string; [reflexivity|discriminate].
Qed.

(** An anchor with a reference is counted once and adds at most one
    finding, which carries the anchor's identity. *)
Lemma checkPinned_attachment parentDir cutoff rigName pinned acc s :
  hasAttachment w pinned = true ->
  exists s',
    (checkPinned w c parentDir cutoff rigName pinned acc s
       = ((fst acc, S (snd acc)), s'))
    \/ (exists f,
          checkPinned w c parentDir cutoff rigName pinned acc s
            = (((fst acc ++ [f])%list, S (snd acc)), s')
          /\ PinnedBeadID f = ID pinned /\ PinnedTitle f = Title pinned
          /\ Rig f = rigName).
Proof.
  unfold hasAttachment, checkPinned. intros H.
  destruct (ParseAttachmentFields w pinned) as [att|]; [|discriminate].
  destruct (AttachedMolecule att =? "")%string; [discriminate|].
  run.
  destruct (beads_Show w parentDir (AttachedMolecule att)) as [mol|e]; run.
  - destruct (parseTimestamp w (UpdatedAt mol)) as [t [e|]]; run.
    + eexists. left. reflexivity.
    + destruct ((Beads.Status mol =? "in_progress")%string && Before t cutoff);
        run.
      * eexists. right. eexists. split; [reflexivity|]. cbn. auto.
      * eexists. left. reflexivity.
  - eexists. right. eexists. split; [reflexivity|]. cbn. auto.
Qed.

End Resolver.

Section StoreScan.

Variable w : World.
Variable c : StaleAttachmentsCheck.

Lemma fromAnchor_cons rigName p issues f :
  fromAnchor w rigName issues f -> fromAnchor w rigName (p :: issues) f.
Proof.
  intros (q & Hin & H). exists q. split; [right; exact Hin|exact H].
Qed.

Lemma scanPinned_filter parentDir cutoff rigName issues :
  forall acc s,
    scanPinned w c parentDir cutoff rigName issues acc s
    = scanPinned w c parentDir cutoff rigName
        (filter (hasAttachment w) issues) acc s.
Proof.
  induction issues as [|p rest IH]; intros acc s; [reflexivity|].
  cbn [filter scanPinned].
  destruct (hasAttachment w p) eqn:Hp.
  - cbn [scanPinned]. unfold bind.
    destruct (checkPinned w c parentDir cutoff rigName p acc s) as [acc' s'].
    apply IH.
  - unfold bind. rewrite checkPinned_no_attachment by exact Hp. apply IH.
Qed.

Lemma scanPinned_shape parentDir cutoff rigName issues :
  forall acc s,
  exists new s',
    scanPinned w c parentDir cutoff rigName issues acc s
    = (((fst acc ++ new)%list,
        (snd acc + List.length (filter (hasAttachment w) issues))%nat), s')
    /\ Forall (fromAnchor w rigName issues) new
    /\ (List.length new
        <= List.length (filter (hasAttachment w) issues))%nat.
Proof.
  induction issues as [|p rest IH]; intros acc s.
  - exists [], s. cbn. rewrite app_nil_r, Nat.add_0_r.
    destruct acc; auto.
  - cbn [scanPinned filter]. unfold bind.
    destruct (hasAttachment w p) eqn:Hp.
    + destruct (checkPinned_attachment w c parentDir cutoff rigName p acc s Hp)
        as (s1 & [E | (f & E & Hid & Htitle & Hrig)]); rewrite E.
      * destruct (IH (fst acc, S (snd acc)) s1) as (new & s' & E' & Hall & Hlen).
        exists new, s'. rewrite E'. cbn [fst snd List.length].
        split; [f_equal; f_equal; lia|].
        split; [|lia].
        eapply Forall_impl; [|exact Hall].
        intros a. apply fromAnchor_cons.
      * destruct (IH ((fst acc ++ [f])%list, S (snd acc)) s1)
          as (new & s' & E' & Hall & Hlen).
        exists (f :: new), s'. rewrite E'. cbn [fst snd List.length].
        split; [rewrite <- app_assoc; cbn; f_equal; f_equal; lia|].
        split; [|lia].
        constructor.
        -- exists p. split; [left; reflexivity|]. auto.
        -- eapply Forall_impl; [|exact Hall].
           intros a. apply fromAnchor_cons.
    + rewrite checkPinned_no_attachment by exact Hp.
      destruct (IH acc s) as (new & s' & E' & Hall & Hlen).
      exists new, s'. rewrite E'. split; [reflexivity|].
      split; [|exact Hlen].
      eapply Forall_impl; [|exact Hall].
      intros a. apply fromAnchor_cons.
Qed.

(** C3.  A store scan that can list its pinned anchors returns as
    checked-count the number of listed anchors whose attachment reference
    is present and non-empty, whatever becomes of them (at most that many
    findings come back); every finding belongs to such an anchor, and the
    anchors without a reference can be dropped from the listing without
    changing the outcome, the calls made included. *)
Theorem checked_count_is_attached_anchors
    (workDir beadsDir : string) (cutoff : Time) (rigName workerName : string)
    (issues : list Issue) (s : St) :
  beads_List w (filepath_Dir w beadsDir)
    {| opt_Status := StatusPinned; opt_Priority := -1 |} = Ok issues ->
  exists stale s',
    checkBeadsDirWithContext w c workDir beadsDir cutoff rigName workerName s
    = (Ok (stale, List.length (filter (hasAttachment w) issues)), s')
    /\ Forall (fromAnchor w rigName issues) stale
    /\ (List.length stale
        <= List.length (filter (hasAttachment w) issues))%nat
    /\ forall acc s0,
         scanPinned w c (filepath_Dir w beadsDir) cutoff rigName issues acc s0
         = scanPinned w c (filepath_Dir w beadsDir) cutoff rigName
             (filter (hasAttachment w) issues) acc s0.
Proof.
  intros HL. unfold checkBeadsDirWithContext. run. rewrite HL. run.
  match goal with
  | |- context [scanPinned w c ?d cutoff rigName issues ?a ?st] =>
    destruct (scanPinned_shape d cutoff rigName issues a st)
      as (new & s' & E & Hall & Hlen)
  end.
  rewrite E. cbn [fst snd app Nat.add].
  exists new, s'. split; [reflexivity|]. split; [exact Hall|].
  split; [exact Hlen|]. intros acc s0. apply scanPinned_filter.
Qed.

End StoreScan.

Section Anchors.

Variable w : World.
Variable c : StaleAttachmentsCheck.

(** C7.  The parser tries RFC3339, then the date-time layout without
    offset, then the date-only layout, and returns the first success
    with a nil error, whatever the later layouts would say; when all
    three fail it returns the zero time and an error. *)
Theorem parseTimestamp_first_match_wins (ts : string) :
  (forall t, time_Parse w RFC3339 ts = Ok t ->
             parseTimestamp w ts = (t, None))
  /\ (forall t, is_err (time_Parse w RFC3339 ts) = true ->
                time_Parse w layoutNoZone ts = Ok t ->
                parseTimestamp w ts = (t, None))
  /\ (forall t, is_err (time_Parse w RFC3339 ts) = true ->
                is_err (time_Parse w layoutNoZone ts) = true ->
                time_Parse w layoutDateOnly ts = Ok t ->
                parseTimestamp w ts = (t, None))
  /\ (is_err (time_Parse w RFC3339 ts) = true ->
      is_err (time_Parse w layoutNoZone ts) = true ->
      is_err (time_Parse w layoutDateOnly ts) = true ->
      parseTimestamp w ts
      = (zeroTime, Some ("unable to parse timestamp: " ++ ts))).
Proof.
  unfold parseTimestamp.
  destruct (time_Parse w RFC3339 ts) as [t1|e1];
    destruct (time_Parse w layoutNoZone ts) as [t2|e2];
    destruct (time_Parse w layoutDateOnly ts) as [t3|e3];
    cbn [is_err]; repeat split; intros; congruence.
Qed.

(** C1, amended.  For an anchor with a non-empty reference whose unit
    is fetched and whose timestamp parses, the anchor is counted and a
    finding is appended exactly when the unit's status is "in_progress"
    and the parsed time is strictly before the cutoff; any other status
    gives no finding.  The finding's duration is the clock reading minus
    the parsed time when that difference fits a 64-bit nanosecond
    duration, and the nearest bound of that range otherwise. *)
Theorem stale_finding_iff_in_progress_before_cutoff
    (parentDir : string) (cutoff : Time) (rigName : string)
    (pinned : Issue) (acc : list StaleAttachment * nat) (s : St)
    (att : AttachmentFields) (mol : Issue) (t : Time) :
  ParseAttachmentFields w pinned = Some att ->
  AttachedMolecule att <> "" ->
  beads_Show w parentDir (AttachedMolecule att) = Ok mol ->
  parseTimestamp w (UpdatedAt mol) = (t, None) ->
  let now := clock w (ticks s) in
  let out := fst (checkPinned w c parentDir cutoff rigName pinned acc s) in
  snd out = S (snd acc)
  /\ ((exists f, fst out = (fst acc ++ [f])%list)
      <-> Beads.Status mol = "in_progress" /\ t < cutoff)
  /\ (Beads.Status mol = "in_progress" /\ t < cutoff ->
      fst out
      = (fst acc ++ [staleFinding rigName pinned mol t (Sub now t)])%list)
  /\ (~ (Beads.Status mol = "in_progress" /\ t < cutoff) -> fst out = fst acc)
  /\ (Beads.Status mol <> "in_progress" -> fst out = fst acc)
  /\ (minDuration <= now - t <= maxDuration -> Sub now t = now - t)
  /\ (maxDuration < now - t -> Sub now t = maxDuration)
  /\ (now - t < minDuration -> Sub now t = minDuration).
Proof.
  intros Hatt Hne Hshow Hparse now out. subst now out.
  unfold checkPinned. rewrite Hatt, (eqb_empty_false _ Hne). run.
  rewrite Hshow. run. rewrite Hparse. run.
  unfold Before.
  destruct (String.eqb_spec (Beads.Status mol) "in_progress") as [Hs|Hs];
    destruct (Z.ltb_spec t cutoff) as [Hlt|Hge];
    cbn [andb]; run;
    (split; [reflexivity|]);
    (split; [split;
               [intros [f Hf]; try (exfalso; exact (app_one_neq _ _ Hf));
                split; assumption
               |intros [? ?]; try (eexists; reflexivity);
                try congruence; try lia]|]);
    (split; [intros [? ?]; try reflexivity; try congruence; try lia|]);
    (split; [intros Hn; try reflexivity; exfalso; apply Hn; split;
               assumption|]);
    (split; [intros Hn; try reflexivity; congruence|]);
    (split; [apply Sub_exact|]);
    (split; [apply Sub_clamped_high|apply Sub_clamped_low]).
Qed.

(** The step of the loop for an anchor whose unit cannot be fetched. *)
Lemma checkPinned_fetch_failed
    (parentDir : string) (cutoff : Time) (rigName : string)
    (pinned : Issue) (acc : list StaleAttachment * nat) (s : St)
    (att : AttachmentFields) :
  ParseAttachmentFields w pinned = Some att ->
  AttachedMolecule att <> "" ->
  is_err (beads_Show w parentDir (AttachedMolecule att)) = true ->
  let now := clock w (ticks s) in
  let d := dur_add (Sub now cutoff) (Threshold c) in
  fst (checkPinned w c parentDir cutoff rigName pinned acc s)
  = ((fst acc
        ++ [notFoundFinding rigName pinned (AttachedMolecule att) d])%list,
     S (snd acc))
  /\ MoleculeTitle (notFoundFinding rigName pinned (AttachedMolecule att) d)
     = "(molecule not found)"
  /\ LastUpdated (notFoundFinding rigName pinned (AttachedMolecule att) d)
     = zeroTime
  /\ forall k : nat,
       monotone w ->
       (k <= ticks s)%nat ->
       cutoff = Add (clock w k) (dur_neg (Threshold c)) ->
       0 < Threshold c ->
       (now - clock w k) + 2 * Threshold c <= maxDuration ->
       d = (now - clock w k) + 2 * Threshold c /\ Threshold c < d.
Proof.
  intros Hatt Hne Hshow now d. subst now d.
  unfold checkPinned. rewrite Hatt, (eqb_empty_false _ Hne). run.
  destruct (beads_Show w parentDir (AttachedMolecule att)) as [mol|e];
    [discriminate|]. run.
  split; [reflexivity|]. split; [reflexivity|]. split; [reflexivity|].
  intros k Hmono Hk Hc HT Hfit. subst cutoff.
  specialize (Hmono k (ticks s) Hk).
  rewrite synthesized_duration by assumption. split; lia.
Qed.

(** C6.  For an anchor with a non-empty reference whose unit is fetched
    but whose timestamp does not parse, no finding is added and the
    checked-count is one more than before. *)
Theorem unparseable_timestamp_counted_not_reported
    (parentDir : string) (cutoff : Time) (rigName : string)
    (pinned : Issue) (acc : list StaleAttachment * nat) (s : St)
    (att : AttachmentFields) (mol : Issue) :
  ParseAttachmentFields w pinned = Some att ->
  AttachedMolecule att <> "" ->
  beads_Show w parentDir (AttachedMolecule att) = Ok mol ->
  snd (parseTimestamp w (UpdatedAt mol)) <> None ->
  fst (checkPinned w c parentDir cutoff rigName pinned acc s)
  = (fst acc, S (snd acc)).
Proof.
  intros Hatt Hne Hshow Hparse.
  unfold checkPinned. rewrite Hatt, (eqb_empty_false _ Hne). run.
  rewrite Hshow. run.
  destruct (parseTimestamp w (UpdatedAt mol)) as [t [e|]];
    [reflexivity|]. cbn in Hparse. congruence.
Qed.

End Anchors.

(** ** The log of external calls *)

Lemma noDiscovery_ret {A : Type} (a : A) : noDiscovery (ret a).
Proof. intros s. exists []. cbn. rewrite app_nil_r. auto. Qed.

Lemma noDiscovery_bind {A B : Type} (m : M A) (f : A -> M B) :
  noDiscovery m -> (forall a, noDiscovery (f a)) -> noDiscovery (bind m f).
Proof.
  intros Hm Hf s. unfold bind.
  destruct (Hm s) as (e1 & E1 & F1).
  destruct (m s) as [a s1]. cbn [snd] in E1.
  destruct (Hf a s1) as (e2 & E2 & F2).
  exists (e1 ++ e2)%list. rewrite E2, E1, app_assoc.
  split; [reflexivity|]. apply Forall_app. auto.
Qed.

Lemma noDiscovery_emit (e : Event) :
  isDiscover e = false -> noDiscovery (emit e).
Proof. intros H s. exists [e]. cbn. auto. Qed.

Lemma noDiscovery_Now (w : World) : noDiscovery (time_Now w).
Proof. intros s. exists []. cbn. rewrite app_nil_r. auto. Qed.

Create HintDb nodisc.

#[local] Hint Resolve noDiscovery_ret noDiscovery_Now : nodisc.

Ltac nodisc :=
  repeat first
    [ apply noDiscovery_ret
    | apply noDiscovery_Now
    | apply noDiscovery_emit; reflexivity
    | apply noDiscovery_bind; [|intros ?]
    | match goal with
      | |- noDiscovery (match ?x with _ => _ end) => destruct x
      | |- noDiscovery (if ?b then _ else _) => destruct b
      end
    | solve [auto with nodisc] ].

Section Log.

Variable w : World.
Variable c : StaleAttachmentsCheck.

Lemma noDiscovery_checkPinned parentDir cutoff rigName pinned acc :
  noDiscovery (checkPinned w c parentDir cutoff rigName pinned acc).
Proof.
  unfold checkPinned, bd_Show, time_Since. nodisc.
Qed.

Lemma noDiscovery_scanPinned parentDir cutoff rigName issues :
  forall acc,
    noDiscovery (scanPinned w c parentDir cutoff rigName issues acc).
Proof.
  induction issues as [|p rest IH]; intros acc; cbn [scanPinned].
  - nodisc.
  - apply noDiscovery_bind; [apply noDiscovery_checkPinned|].
    intros a. apply IH.
Qed.

Lemma noDiscovery_checkBeadsDir workDir beadsDir cutoff rigName workerName :
  noDiscovery
    (checkBeadsDirWithContext w c workDir beadsDir cutoff rigName workerName).
Proof.
  unfold checkBeadsDirWithContext, bd_List.
  apply noDiscovery_bind; [nodisc|]. intros [issues|e]; [|nodisc].
  apply noDiscovery_bind; [apply noDiscovery_scanPinned|]. intros a. nodisc.
Qed.

Lemma noDiscovery_scanStores rigPath cutoff rigName label dirs :
  forall acc,
    noDiscovery (scanStores w c rigPath cutoff rigName label dirs acc).
Proof.
  induction dirs as [|d rest IH]; intros acc; cbn [scanStores].
  - nodisc.
  - apply noDiscovery_bind; [apply noDiscovery_checkBeadsDir|].
    intros [[stale checked]|e]; apply IH.
Qed.

Lemma noDiscovery_checkRig townRoot rigName cutoff :
  noDiscovery (checkRig w c townRoot rigName cutoff).
Proof.
  unfold checkRig, call_Glob.
  apply noDiscovery_bind; [nodisc|]. intros [dirs|e]; [|nodisc].
  apply noDiscovery_bind; [apply noDiscovery_scanStores|]. intros acc.
  apply noDiscovery_bind; [nodisc|]. intros [crew|e]; [|nodisc].
  apply noDiscovery_bind; [apply noDiscovery_scanStores|]. intros a. nodisc.
Qed.

Lemma noDiscovery_scanRigs townRoot cutoff rigs :
  forall acc, noDiscovery (scanRigs w c townRoot cutoff rigs acc).
Proof.
  induction rigs as [|r rest IH]; intros acc; cbn [scanRigs].
  - nodisc.
  - apply noDiscovery_bind; [apply noDiscovery_checkRig|].
    intros [[stale checked]|e]; apply IH.
Qed.

Lemma noDiscovery_scanAll townRoot rigs :
  noDiscovery (scanAll w c townRoot rigs).
Proof.
  unfold scanAll, collect, checkBeadsDir.
  apply noDiscovery_bind; [nodisc|]. intros now.
  apply noDiscovery_bind; [apply noDiscovery_scanRigs|]. intros acc.
  apply noDiscovery_bind; [apply noDiscovery_checkBeadsDir|].
  intros [[stale checked]|e]; nodisc.
Qed.

End Log.

Section Walk.

Variable w : World.
Variable c : StaleAttachmentsCheck.

Lemma checkRig_polecats_glob_failed townRoot rigName cutoff s e :
  filepath_Glob w (polecatsPattern w townRoot rigName) = Err e ->
  checkRig w c townRoot rigName cutoff s
  = (Err e, logged s (EvGlob (polecatsPattern w townRoot rigName))).
Proof.
  intros Hp. unfold checkRig. run. rewrite Hp. reflexivity.
Qed.

(** A rig that fails is passed over by the loop of [Run]. *)
Lemma scanRigs_skips_failed_rig townRoot cutoff r rest acc s :
  is_err (fst (checkRig w c townRoot r cutoff s)) = true ->
  scanRigs w c townRoot cutoff (r :: rest) acc s
  = scanRigs w c townRoot cutoff rest acc
      (snd (checkRig w c townRoot r cutoff s)).
Proof.
  intros H. cbn [scanRigs]. unfold bind.
  destruct (checkRig w c townRoot r cutoff s) as [[[st ch]|e] s1];
    [discriminate|reflexivity].
Qed.

(** A store that fails is passed over by the loops of [checkRig]. *)
Lemma scanStores_skips_failed_store rigPath cutoff rigName label d rest acc s :
  let one := checkBeadsDirWithContext w c rigPath d cutoff rigName
               (label (filepath_Base w (filepath_Dir w d))) s in
  is_err (fst one) = true ->
  scanStores w c rigPath cutoff rigName label (d :: rest) acc s
  = scanStores w c rigPath cutoff rigName label rest acc (snd one).
Proof.
  intros one H. subst one. cbn [scanStores]. unfold bind.
  destruct (checkBeadsDirWithContext w c rigPath d cutoff rigName
              (label (filepath_Base w (filepath_Dir w d))) s)
    as [[[st ch]|e] s1]; [discriminate|reflexivity].
Qed.

(** A town store that fails leaves what the rigs gave. *)
Lemma collect_skips_failed_town townRoot cutoff rigs s :
  let rigsDone := scanRigs w c townRoot cutoff rigs ([], 0%nat) s in
  let town := checkBeadsDir w c townRoot
                (filepath_Join w [townRoot; ".beads"]) cutoff
                (snd rigsDone) in
  is_err (fst town) = true ->
  collect w c townRoot cutoff rigs s = (fst rigsDone, snd town).
Proof.
  intros rigsDone town H. subst rigsDone town. unfold collect, bind.
  destruct (scanRigs w c townRoot cutoff rigs ([], 0%nat) s) as [acc s1].
  cbn [fst snd] in *.
  destruct (checkBeadsDir w c townRoot
              (filepath_Join w [townRoot; ".beads"]) cutoff s1)
    as [[[st ch]|e] s2]; [discriminate|reflexivity].
Qed.

(** A store whose listing fails is an error of the store scan. *)
Lemma checkBeadsDir_list_failure workDir beadsDir cutoff rigName worker s e :
  beads_List w (filepath_Dir w beadsDir)
    {| opt_Status := StatusPinned; opt_Priority := -1 |} = Err e ->
  checkBeadsDirWithContext w c workDir beadsDir cutoff rigName worker s
  = (Err e, logged s (EvList (filepath_Dir w beadsDir))).
Proof.
  intros H. unfold checkBeadsDirWithContext. run. rewrite H. reflexivity.
Qed.

(** *** The shape of [Run] *)

Lemma render_not_error stale checked :
  Status (render w c stale checked) = StatusOK
  \/ Status (render w c stale checked) = StatusWarning.
Proof.
  destruct stale; [destruct checked|]; cbn; auto.
Qed.

Lemma Run_named ctx s :
  RigName ctx <> "" ->
  Run w c ctx s
  = (render w c (fst (fst (scanAll w c (TownRoot ctx) [RigName ctx] s)))
                (snd (fst (scanAll w c (TownRoot ctx) [RigName ctx] s))),
     snd (scanAll w c (TownRoot ctx) [RigName ctx] s)).
Proof.
  intros H. unfold Run, rigsToCheck.
  rewrite (eqb_empty_false _ H). cbn [negb]. unfold bind at 1, ret at 1.
  unfold bind, ret.
  destruct (scanAll w c (TownRoot ctx) [RigName ctx] s) as [acc s'].
  reflexivity.
Qed.

Lemma Run_discovered ctx s r rigs :
  RigName ctx = "" ->
  discoverRigs w (TownRoot ctx) = Ok (r :: rigs) ->
  let s1 := logged s (EvDiscover (TownRoot ctx)) in
  Run w c ctx s
  = (render w c (fst (fst (scanAll w c (TownRoot ctx) (r :: rigs) s1)))
                (snd (fst (scanAll w c (TownRoot ctx) (r :: rigs) s1))),
     snd (scanAll w c (TownRoot ctx) (r :: rigs) s1)).
Proof.
  intros Hn Hd s1. subst s1. unfold Run, rigsToCheck. rewrite Hn.
  cbn [String.eqb negb]. unfold call_discoverRigs.
  unfold bind at 1. unfold bind at 1, emit, ret at 1. rewrite Hd.
  unfold bind, ret. fold (logged s (EvDiscover (TownRoot ctx))).
  destruct (scanAll w c (TownRoot ctx) (r :: rigs)
              (logged s (EvDiscover (TownRoot ctx)))) as [acc s'].
  reflexivity.
Qed.

Lemma Run_no_rigs ctx s :
  RigName ctx = "" ->
  discoverRigs w (TownRoot ctx) = Ok [] ->
  Run w c ctx s
  = ({| Name := CheckName c; Status := StatusOK;
        Message := "No rigs configured"; Details := []; FixHint := "" |},
     logged s (EvDiscover (TownRoot ctx))).
Proof.
  intros Hn Hd. unfold Run, rigsToCheck. rewrite Hn.
  cbn [String.eqb negb]. run. rewrite Hd. reflexivity.
Qed.

Lemma Run_discovery_failed ctx s e :
  RigName ctx = "" ->
  discoverRigs w (TownRoot ctx) = Err e ->
  Run w c ctx s
  = ({| Name := CheckName c; Status := StatusError;
        Message := "Failed to discover rigs"; Details := [e];
        FixHint := "" |},
     logged s (EvDiscover (TownRoot ctx))).
Proof.
  intros Hn Hd. unfold Run, rigsToCheck. rewrite Hn.
  cbn [String.eqb negb]. run. rewrite Hd. reflexivity.
Qed.

Lemma Run_status_error ctx s :
  Status (fst (Run w c ctx s)) = StatusError
  <-> RigName ctx = "" /\ is_err (discoverRigs w (TownRoot ctx)) = true.
Proof.
  destruct (String.eqb_spec (RigName ctx) "") as [Hn|Hn].
  - destruct (discoverRigs w (TownRoot ctx)) as [[|r rigs]|e] eqn:Hd.
    + rewrite (Run_no_rigs ctx s Hn Hd). cbn.
      split; [discriminate|intros [_ H]; discriminate].
    + rewrite (Run_discovered ctx s r rigs Hn Hd). cbn [fst Status].
      split; [|intros [_ H]; discriminate].
      intros H.
      destruct (render_not_error
                  (fst (fst (scanAll w c (TownRoot ctx) (r :: rigs)
                               (logged s (EvDiscover (TownRoot ctx))))))
                  (snd (fst (scanAll w c (TownRoot ctx) (r :: rigs)
                               (logged s (EvDiscover (TownRoot ctx)))))))
        as [E|E]; congruence.
    + rewrite (Run_discovery_failed ctx s e Hn Hd). cbn. tauto.
  - rewrite (Run_named ctx s Hn). cbn [fst].
    split; [|intros [H _]; congruence].
    intros H.
    destruct (render_not_error
                (fst (fst (scanAll w c (TownRoot ctx) [RigName ctx] s)))
                (snd (fst (scanAll w c (TownRoot ctx) [RigName ctx] s))))
      as [E|E]; congruence.
Qed.

End Walk.

Section Report.

Variable w : World.
Variable c : StaleAttachmentsCheck.

Lemma scanRigs_all_failed townRoot cutoff rigs :
  (forall r, In r rigs ->
             is_err (filepath_Glob w (polecatsPattern w townRoot r)) = true) ->
  forall acc s, fst (scanRigs w c townRoot cutoff rigs acc s) = acc.
Proof.
  induction rigs as [|r rest IH]; intros Hall acc s; [reflexivity|].
  destruct (filepath_Glob w (polecatsPattern w townRoot r)) as [d|e] eqn:Hg.
  - specialize (Hall r (or_introl eq_refl)). rewrite Hg in Hall.
    discriminate.
  - rewrite scanRigs_skips_failed_rig
      by (rewrite (checkRig_polecats_glob_failed w c _ _ _ _ _ Hg);
          reflexivity).
    apply IH. intros r' Hin. apply Hall. right. exact Hin.
Qed.

Lemma scanAll_all_failed townRoot rigs s :
  (forall r, In r rigs ->
             is_err (filepath_Glob w (polecatsPattern w townRoot r)) = true) ->
  is_err (beads_List w
            (filepath_Dir w (filepath_Join w [townRoot; ".beads"]))
            {| opt_Status := StatusPinned; opt_Priority := -1 |}) = true ->
  fst (scanAll w c townRoot rigs s) = ([], 0%nat).
Proof.
  intros Hrigs Htown. unfold scanAll. run.
  match goal with
  | |- context [collect w c townRoot ?cut rigs ?st] =>
    rewrite (collect_skips_failed_town w c townRoot cut rigs st)
  end.
  - cbn [fst]. apply scanRigs_all_failed. exact Hrigs.
  - unfold checkBeadsDir.
    destruct (beads_List w
                (filepath_Dir w (filepath_Join w [townRoot; ".beads"]))
                {| opt_Status := StatusPinned; opt_Priority := -1 |})
      as [l|e] eqn:HL; [discriminate|].
    rewrite (checkBeadsDir_list_failure w c _ _ _ _ _ _ _ HL). reflexivity.
Qed.

(** C9.  With a non-empty rig name in the context, [Run] makes no
    discovery call, its result is the rendering of the scan of that one
    rig and the town store, and its status is OK or Warning, never
    Error. *)
Theorem named_rig_never_reports_error (ctx : CheckContext) (s : St) :
  RigName ctx <> "" ->
  Status (fst (Run w c ctx s)) <> StatusError
  /\ (Status (fst (Run w c ctx s)) = StatusOK
      \/ Status (fst (Run w c ctx s)) = StatusWarning)
  /\ fst (Run w c ctx s)
     = render w c
         (fst (fst (scanAll w c (TownRoot ctx) [RigName ctx] s)))
         (snd (fst (scanAll w c (TownRoot ctx) [RigName ctx] s)))
  /\ exists evs,
       trace (snd (Run w c ctx s)) = (trace s ++ evs)%list
       /\ Forall (fun e => isDiscover e = false) evs.
Proof.
  intros Hn. rewrite (Run_named w c ctx s Hn). cbn [fst snd].
  pose proof (render_not_error w c
                (fst (fst (scanAll w c (TownRoot ctx) [RigName ctx] s)))
                (snd (fst (scanAll w c (TownRoot ctx) [RigName ctx] s))))
    as Hr.
  split; [destruct Hr as [E|E]; rewrite E; discriminate|].
  split; [exact Hr|]. split; [reflexivity|].
  apply noDiscovery_scanAll.
Qed.

(** C10.  With no rig name and a discovery that returns zero rigs,
    [Run] returns status OK with message "No rigs configured" and no
    details; the discovery call is the only call it makes and the clock
    is not read, so the town store is neither listed nor fetched from,
    whatever it holds. *)
Theorem no_rigs_returns_before_town_scan (ctx : CheckContext) (s : St) :
  RigName ctx = "" ->
  discoverRigs w (TownRoot ctx) = Ok [] ->
  fst (Run w c ctx s)
  = {| Name := CheckName c; Status := StatusOK;
       Message := "No rigs configured"; Details := []; FixHint := "" |}
  /\ trace (snd (Run w c ctx s))
     = (trace s ++ [EvDiscover (TownRoot ctx)])%list
  /\ ticks (snd (Run w c ctx s)) = ticks s
  /\ forall e,
       In e (trace (snd (Run w c ctx s))) ->
       In e (trace s) \/ isStoreAccess e = false.
Proof.
  intros Hn Hd. rewrite (Run_no_rigs w c ctx s Hn Hd). cbn.
  repeat split; auto.
  intros e He. apply in_app_or in He. destruct He as [He|[He|[]]].
  - left. exact He.
  - right. subst e. reflexivity.
Qed.

(** X14.  The report is the rendering of the accumulated findings and
    checked-count.  With findings: status Warning, a message with their
    number and the threshold, one detail line per finding in order, the
    fixed hint.  Without findings: status OK, "No attachments to check"
    for a zero count and "Checked N attachment(s), none stale" otherwise.
    A detail line has the location ("town" for an empty rig label), the
    two titles with the bytes C3 A2 E2 80 A0 E2 80 99 between them, the
    assignee clause unless the assignee is empty, and the formatted
    duration. *)
Theorem report_is_rendering_of_findings_and_count :
  (forall stale checked,
     stale <> [] ->
     let r := render w c stale checked in
     Status r = StatusWarning
     /\ Message r
        = fmt_d (Z.of_nat (List.length stale))
            ++ " stale attachment(s) found (no activity for >"
            ++ formatDuration w (Threshold c) ++ ")"
     /\ Details r = map (detailLine w) stale
     /\ List.length (Details r) = List.length stale
     /\ FixHint r = fixHint)
  /\ render w c [] 0
     = {| Name := CheckName c; Status := StatusOK;
          Message := "No attachments to check"; Details := [];
          FixHint := "" |}
  /\ (forall checked,
        (0 < checked)%nat ->
        render w c [] checked
        = {| Name := CheckName c; Status := StatusOK;
             Message := "Checked " ++ fmt_d (Z.of_nat checked)
                          ++ " attachment(s), none stale";
             Details := []; FixHint := "" |})
  /\ (forall sa,
        exists location clause,
          detailLine w sa
          = location ++ ": " ++ PinnedTitle sa ++ " "
              ++ bytes [195; 162; 226; 128; 160; 226; 128; 153] ++ " "
              ++ MoleculeTitle sa ++ clause ++ " (stale for "
              ++ formatDuration w (StaleDuration sa) ++ ")"
          /\ (Rig sa = "" -> location = "town")
          /\ (Rig sa <> "" -> location = Rig sa)
          /\ (Assignee sa = "" -> clause = "")
          /\ (Assignee sa <> "" -> clause = assigneeClause (Assignee sa)))
  /\ (forall ctx s,
        RigName ctx <> "" ->
        let acc := fst (scanAll w c (TownRoot ctx) [RigName ctx] s) in
        fst (Run w c ctx s) = render w c (fst acc) (snd acc))
  /\ (forall ctx s r rigs,
        RigName ctx = "" ->
        discoverRigs w (TownRoot ctx) = Ok (r :: rigs) ->
        let acc := fst (scanAll w c (TownRoot ctx) (r :: rigs)
                          (logged s (EvDiscover (TownRoot ctx)))) in
        fst (Run w c ctx s) = render w c (fst acc) (snd acc)).
Proof.
  split.
  { intros stale checked Hne r. subst r.
    destruct stale as [|sa rest]; [congruence|]. cbn [render].
    cbn [Status Message Details FixHint].
    repeat split; try reflexivity. apply length_map. }
  split; [reflexivity|].
  split.
  { intros checked H. destruct checked as [|n]; [lia|]. reflexivity. }
  split.
  { intros sa. unfold detailLine, assigneeClause.
    exists (if (Rig sa =? "")%string then "town" else Rig sa).
    exists (if (Assignee sa =? "")%string then ""
            else " (assignee: " ++ Assignee sa ++ ")").
    split; [reflexivity|].
    destruct (String.eqb_spec (Rig sa) "");
      destruct (String.eqb_spec (Assignee sa) "");
      repeat split; intros; congruence. }
  split.
  { intros ctx s Hn acc. subst acc. rewrite (Run_named w c ctx s Hn).
    reflexivity. }
  intros ctx s r rigs Hn Hd acc. subst acc.
  rewrite (Run_discovered w c ctx s r rigs Hn Hd). reflexivity.
Qed.

End Report.

(** ** Every reported duration exceeds the threshold *)

Lemma real_duration (t0 now t : Time) (T : Duration) :
  0 < T -> 2 * T <= maxDuration -> t0 <= now ->
  t < Add t0 (dur_neg T) -> T < Sub now t.
Proof.
  intros HT Hfit Hmono Hlt. unfold Add, dur_neg in Hlt.
  rewrite wrap64_in_range in Hlt
    by (unfold minDuration, maxDuration in *; lia).
  destruct (Z.le_gt_cases (now - t) maxDuration) as [Hle|Hgt].
  - rewrite Sub_exact by (unfold minDuration, maxDuration in *; lia). lia.
  - rewrite Sub_clamped_high by lia. lia.
Qed.

Section Durations.

Variable w : World.
Variable c : StaleAttachmentsCheck.

(** The cutoff was taken at tick [k]; [B] bounds the ticks of the scan, and
    up to there the sum of elapsed time and twice the threshold fits a
    duration. *)
Variables k B : nat.
Hypothesis clock_monotone : monotone w.
Hypothesis threshold_positive : 0 < Threshold c.
Hypothesis fits : (clock w B - clock w k) + 2 * Threshold c <= maxDuration.

Let cutoff : Time := Add (clock w k) (dur_neg (Threshold c)).
Let exceeds (f : StaleAttachment) : Prop := Threshold c < StaleDuration f.

Lemma checkPinned_durations parentDir rigName pinned acc s :
  (k <= ticks s)%nat ->
  let r := checkPinned w c parentDir cutoff rigName pinned acc s in
  (ticks s <= ticks (snd r))%nat
  /\ ((ticks (snd r) <= B)%nat ->
      Forall exceeds (fst acc) -> Forall exceeds (fst (fst r))).
Proof.
  intros Hk r. subst r. unfold checkPinned.
  destruct (ParseAttachmentFields w pinned) as [att|]; [|run; auto].
  destruct (AttachedMolecule att =? "")%string; [run; auto|]. run.
  pose proof (clock_monotone k (ticks s) Hk) as Hnow.
  destruct (beads_Show w parentDir (AttachedMolecule att)) as [mol|e]; run.
  - destruct (parseTimestamp w (UpdatedAt mol)) as [t [e|]]; run; [auto|].
    destruct (Beads.Status mol =? "in_progress")%string; cbn [andb];
      [|run; auto].
    destruct (Before t cutoff) eqn:Hb; run; [|auto].
    split; [lia|]. intros HB Hacc. apply Forall_app. split; [exact Hacc|].
    constructor; [|constructor]. unfold exceeds. cbn [StaleDuration].
    pose proof (clock_monotone (ticks s) B ltac:(lia)) as HnB.
    apply (real_duration (clock w k)); try assumption; try lia.
    apply Z.ltb_lt. exact Hb.
  - split; [lia|]. intros HB Hacc. apply Forall_app. split; [exact Hacc|].
    constructor; [|constructor]. unfold exceeds. cbn [StaleDuration].
    pose proof (clock_monotone (ticks s) B ltac:(lia)) as HnB.
    unfold cutoff. rewrite synthesized_duration; try assumption; lia.
Qed.

Lemma scanPinned_durations parentDir rigName issues :
  forall acc s,
    (k <= ticks s)%nat ->
    let r := scanPinned w c parentDir cutoff rigName issues acc s in
    (ticks s <= ticks (snd r))%nat
    /\ ((ticks (snd r) <= B)%nat ->
        Forall exceeds (fst acc) -> Forall exceeds (fst (fst r))).
Proof.
  induction issues as [|p rest IH]; intros acc s Hk; cbn [scanPinned].
  - run. auto.
  - unfold bind.
    pose proof (checkPinned_durations parentDir rigName p acc s Hk) as H1.
    cbv zeta in H1.
    destruct (checkPinned w c parentDir cutoff rigName p acc s) as [acc1 s1].
    cbn [fst snd] in H1. destruct H1 as [Ht1 Hf1].
    pose proof (IH acc1 s1 ltac:(lia)) as H2. cbv zeta in H2.
    destruct H2 as [Ht2 Hf2].
    split; [lia|]. intros HB Hacc. apply Hf2; [exact HB|].
    apply Hf1; [lia|exact Hacc].
Qed.

(** What a scan that may fail adds. *)
Let exceedsAll (r : result (list StaleAttachment * nat)) : Prop :=
  match r with
  | Ok (stale, _) => Forall exceeds stale
  | Err _ => True
  end.

Lemma checkBeadsDir_durations workDir beadsDir rigName workerName s :
  (k <= ticks s)%nat ->
  let r := checkBeadsDirWithContext w c workDir beadsDir cutoff rigName
             workerName s in
  (ticks s <= ticks (snd r))%nat
  /\ ((ticks (snd r) <= B)%nat -> exceedsAll (fst r)).
Proof.
  intros Hk r. subst r. unfold checkBeadsDirWithContext. run.
  destruct (beads_List w (filepath_Dir w beadsDir)
              {| opt_Status := StatusPinned; opt_Priority := -1 |})
    as [issues|e]; run; [|cbn; auto].
  match goal with
  | |- context [scanPinned w c ?d cutoff rigName issues ?a ?st] =>
    pose proof (scanPinned_durations d rigName issues a st Hk) as H;
    cbv zeta in H;
    destruct (scanPinned w c d cutoff rigName issues a st) as [[stale n] s1]
  end.
  cbn [fst snd] in *. destruct H as [Ht Hf].
  split; [exact Ht|]. intros HB. apply Hf; [exact HB|constructor].
Qed.

Lemma scanStores_durations rigPath rigName label dirs :
  forall acc s,
    (k <= ticks s)%nat ->
    let r := scanStores w c rigPath cutoff rigName label dirs acc s in
    (ticks s <= ticks (snd r))%nat
    /\ ((ticks (snd r) <= B)%nat ->
        Forall exceeds (fst acc) -> Forall exceeds (fst (fst r))).
Proof.
  induction dirs as [|d rest IH]; intros acc s Hk; cbn [scanStores].
  - run. auto.
  - unfold bind.
    pose proof (checkBeadsDir_durations rigPath d rigName
                  (label (filepath_Base w (filepath_Dir w d))) s Hk) as H1.
    cbv zeta in H1.
    destruct (checkBeadsDirWithContext w c rigPath d cutoff rigName
                (label (filepath_Base w (filepath_Dir w d))) s)
      as [[[stale n]|e] s1]; cbn [fst snd exceedsAll] in H1;
      destruct H1 as [Ht1 Hf1].
    + pose proof (IH ((fst acc ++ stale)%list, (snd acc + n)%nat) s1
                    ltac:(lia)) as H2.
      cbv zeta in H2. destruct H2 as [Ht2 Hf2].
      split; [lia|]. intros HB Hacc. apply Hf2; [exact HB|].
      cbn [fst]. apply Forall_app. split; [exact Hacc|]. apply Hf1. lia.
    + pose proof (IH acc s1 ltac:(lia)) as H2.
      cbv zeta in H2. destruct H2 as [Ht2 Hf2].
      split; [lia|]. intros HB Hacc. apply Hf2; assumption.
Qed.

Lemma checkRig_durations townRoot rigName s :
  (k <= ticks s)%nat ->
  let r := checkRig w c townRoot rigName cutoff s in
  (ticks s <= ticks (snd r))%nat
  /\ ((ticks (snd r) <= B)%nat -> exceedsAll (fst r)).
Proof.
  intros Hk r. subst r. unfold checkRig. run.
  destruct (filepath_Glob w (polecatsPattern w townRoot rigName))
    as [dirs|e]; run; [|cbn; auto].
  match goal with
  | |- context [scanStores w c ?p cutoff rigName ?l dirs ?a ?st] =>
    pose proof (scanStores_durations p rigName l dirs a st Hk) as H1;
    cbv zeta in H1;
    destruct (scanStores w c p cutoff rigName l dirs a st) as [acc1 s1]
  end.
  cbn [fst snd ticks] in H1. destruct H1 as [Ht1 Hf1]. run.
  destruct (filepath_Glob w (crewPattern w townRoot rigName))
    as [crew|e]; run.
  - match goal with
    | |- context [scanStores w c ?p cutoff rigName ?l crew ?a ?st] =>
      pose proof (scanStores_durations p rigName l crew a st
                    ltac:(cbn [ticks]; lia)) as H2;
      cbv zeta in H2;
      destruct (scanStores w c p cutoff rigName l crew a st)
        as [[stale2 n2] s2]
    end.
    cbn [fst snd ticks] in *. destruct H2 as [Ht2 Hf2].
    split; [lia|]. intros HB. apply Hf2; [exact HB|].
    apply Hf1; [lia|constructor].
  - destruct acc1 as [stale1 n1]. cbn [fst snd ticks exceedsAll] in *.
    split; [exact Ht1|]. intros HB. apply Hf1; [exact HB|constructor].
Qed.

Lemma scanRigs_durations townRoot rigs :
  forall acc s,
    (k <= ticks s)%nat ->
    let r := scanRigs w c townRoot cutoff rigs acc s in
    (ticks s <= ticks (snd r))%nat
    /\ ((ticks (snd r) <= B)%nat ->
        Forall exceeds (fst acc) -> Forall exceeds (fst (fst r))).
Proof.
  induction rigs as [|rig rest IH]; intros acc s Hk; cbn [scanRigs].
  - run. auto.
  - unfold bind.
    pose proof (checkRig_durations townRoot rig s Hk) as H1.
    cbv zeta in H1.
    destruct (checkRig w c townRoot rig cutoff s) as [[[stale n]|e] s1];
      cbn [fst snd exceedsAll] in H1; destruct H1 as [Ht1 Hf1].
    + pose proof (IH ((fst acc ++ stale)%list, (snd acc + n)%nat) s1
                    ltac:(lia)) as H2.
      cbv zeta in H2. destruct H2 as [Ht2 Hf2].
      split; [lia|]. intros HB Hacc. apply Hf2; [exact HB|].
      cbn [fst]. apply Forall_app. split; [exact Hacc|]. apply Hf1. lia.
    + pose proof (IH acc s1 ltac:(lia)) as H2.
      cbv zeta in H2. destruct H2 as [Ht2 Hf2].
      split; [lia|]. intros HB Hacc. apply Hf2; assumption.
Qed.

Lemma collect_durations townRoot rigs s :
  (k <= ticks s)%nat ->
  let r := collect w c townRoot cutoff rigs s in
  (ticks (snd r) <= B)%nat -> Forall exceeds (fst (fst r)).
Proof.
  intros Hk r. subst r. unfold collect, checkBeadsDir. unfold bind, ret.
  pose proof (scanRigs_durations townRoot rigs ([], 0%nat) s Hk) as H1.
  cbv zeta in H1.
  destruct (scanRigs w c townRoot cutoff rigs ([], 0%nat) s) as [acc1 s1].
  cbn [fst snd] in H1. destruct H1 as [Ht1 Hf1].
  pose proof (checkBeadsDir_durations townRoot
                (filepath_Join w [townRoot; ".beads"]) "" "" s1
                ltac:(lia)) as H2.
  cbv zeta in H2.
  destruct (checkBeadsDirWithContext w c townRoot
              (filepath_Join w [townRoot; ".beads"]) cutoff "" "" s1)
    as [[[stale n]|e] s2]; cbn [fst snd exceedsAll] in H2;
    destruct H2 as [Ht2 Hf2]; run; intros HB.
  - apply Forall_app. split; [apply Hf1; [lia|constructor]|apply Hf2; lia].
  - apply Hf1; [lia|constructor].
Qed.

End Durations.

(** Every finding of a whole scan, synthesized or real, carries a duration
    above the threshold, when the threshold is positive, the clock is
    monotone and the scan's elapsed time plus twice the threshold fits a
    duration. *)
Lemma scanAll_durations_exceed_threshold (w : World)
    (c : StaleAttachmentsCheck) (townRoot : string) (rigs : list string)
    (s : St) :
  monotone w ->
  0 < Threshold c ->
  let r := scanAll w c townRoot rigs s in
  (clock w (ticks (snd r)) - clock w (ticks s)) + 2 * Threshold c
    <= maxDuration ->
  Forall (fun f => Threshold c < StaleDuration f) (fst (fst r)).
Proof.
  intros Hmono HT r Hfit. subst r. unfold scanAll in *.
  unfold bind at 1 in Hfit. unfold bind at 1.
  unfold time_Now in *.
  apply (collect_durations w c (ticks s)
           (ticks (snd (collect w c townRoot
                          (Add (clock w (ticks s)) (dur_neg (Threshold c)))
                          rigs
                          {| ticks := S (ticks s); trace := trace s |})))
           Hmono HT Hfit townRoot rigs
           {| ticks := S (ticks s); trace := trace s |}).
  - cbn [ticks]. lia.
  - lia.
Qed.

(** C2, amended.  For an anchor with a non-empty reference whose fetch
    fails, the anchor is counted and exactly one finding is appended:
    placeholder title, zero last-updated time, duration (time since
    cutoff) + threshold in 64-bit arithmetic.  When the cutoff is an
    earlier reading of a monotone clock minus a positive threshold, and
    elapsed time plus twice the threshold fits a 64-bit duration, that
    duration is elapsed time plus twice the threshold and strictly exceeds
    the threshold; over a whole scan under these conditions every finding's
    duration exceeds the threshold. *)
Theorem unresolvable_reference_is_a_finding
    (w : World) (c : StaleAttachmentsCheck)
    (parentDir : string) (cutoff : Time) (rigName : string)
    (pinned : Issue) (acc : list StaleAttachment * nat) (s : St)
    (att : AttachmentFields) :
  ParseAttachmentFields w pinned = Some att ->
  AttachedMolecule att <> "" ->
  is_err (beads_Show w parentDir (AttachedMolecule att)) = true ->
  let now := clock w (ticks s) in
  let d := dur_add (Sub now cutoff) (Threshold c) in
  fst (checkPinned w c parentDir cutoff rigName pinned acc s)
  = ((fst acc
        ++ [notFoundFinding rigName pinned (AttachedMolecule att) d])%list,
     S (snd acc))
  /\ MoleculeTitle (notFoundFinding rigName pinned (AttachedMolecule att) d)
     = "(molecule not found)"
  /\ LastUpdated (notFoundFinding rigName pinned (AttachedMolecule att) d)
     = zeroTime
  /\ (forall k : nat,
        monotone w ->
        (k <= ticks s)%nat ->
        cutoff = Add (clock w k) (dur_neg (Threshold c)) ->
        0 < Threshold c ->
        (now - clock w k) + 2 * Threshold c <= maxDuration ->
        d = (now - clock w k) + 2 * Threshold c /\ Threshold c < d)
  /\ (forall townRoot rigs s0,
        monotone w ->
        0 < Threshold c ->
        let r := scanAll w c townRoot rigs s0 in
        (clock w (ticks (snd r)) - clock w (ticks s0)) + 2 * Threshold c
          <= maxDuration ->
        Forall (fun f => Threshold c < StaleDuration f) (fst (fst r))).
Proof.
  intros Hatt Hne Hshow now d.
  destruct (checkPinned_fetch_failed w c parentDir cutoff rigName pinned acc
              s att Hatt Hne Hshow) as (H1 & H2 & H3 & H4).
  split; [exact H1|]. split; [exact H2|]. split; [exact H3|].
  split; [exact H4|].
  intros townRoot rigs s0. apply scanAll_durations_exceed_threshold.
Qed.

(** * The properties at work on the sample town *)

Import Sample.

(** The parser on one string per layout, and on one no layout accepts. *)
Lemma parseTimestamp_first_match_wins_witness :
  parseTimestamp world "2026-10-30T10:00:00Z"
  = (63928951200 * Second, None)
  /\ parseTimestamp world "2026-10-30T10:00:00"
     = (63928951200 * Second, None)
  /\ parseTimestamp world "2026-10-29" = (63928828800 * Second, None)
  /\ parseTimestamp world "not-a-date"
     = (zeroTime, Some "unable to parse timestamp: not-a-date").
Proof.
  split.
  { apply (proj1 (parseTimestamp_first_match_wins world _)). reflexivity. }
  split.
  { apply (proj1 (proj2 (parseTimestamp_first_match_wins world _)));
      reflexivity. }
  split.
  { apply (proj1 (proj2 (proj2 (parseTimestamp_first_match_wins world _))));
      reflexivity. }
  apply (proj2 (proj2 (proj2
           (parseTimestamp_first_match_wins world "not-a-date"))));
    reflexivity.
Defined.

(** Alice's anchor on a unit in progress, last updated two hours before
    the scan, with a one-hour threshold. *)
Lemma stale_finding_iff_in_progress_before_cutoff_witness :
  ParseAttachmentFields world a_stuck = Some {| AttachedMolecule := "mol-1" |}
  /\ "mol-1" <> ""
  /\ beads_Show world "/town/rig1/polecats/alice" "mol-1" = Ok m_stuck
  /\ parseTimestamp world (UpdatedAt m_stuck)
     = (63928951200 * Second, None)
  /\ fst (checkPinned world check1h "/town/rig1/polecats/alice" cutoff1h
            "rig1" a_stuck ([], 0%nat) st1)
     = ([staleFinding "rig1" a_stuck m_stuck (63928951200 * Second)
           7200001000000], 1%nat).
Proof.
  assert (Hne : "mol-1" <> "") by discriminate.
  split; [reflexivity|]. split; [exact Hne|].
  split; [reflexivity|]. split; [reflexivity|].
  destruct (stale_finding_iff_in_progress_before_cutoff world check1h
              "/town/rig1/polecats/alice" cutoff1h "rig1" a_stuck
              ([], 0%nat) st1 {| AttachedMolecule := "mol-1" |} m_stuck
              (63928951200 * Second) eq_refl Hne eq_refl eq_refl)
    as (Hcount & _ & Hemit & _).
  apply injective_projections.
  - rewrite Hemit; [reflexivity|]. split; reflexivity.
  - exact Hcount.
Defined.

Lemma sample_clock_monotone : monotone world.
Proof.
  intros n m Hnm. change (clock world) with sample_clock.
  unfold sample_clock. apply Z.add_le_mono_l.
  apply Z.mul_le_mono_nonneg_r; lia.
Qed.

(** Alice's anchor on the deleted unit mol-404, one millisecond into the
    scan: one hour since the cutoff, plus the threshold. *)
Lemma unresolvable_reference_is_a_finding_witness :
  ParseAttachmentFields world a_lost
  = Some {| AttachedMolecule := "mol-404" |}
  /\ "mol-404" <> ""
  /\ is_err (beads_Show world "/town/rig1/polecats/alice" "mol-404") = true
  /\ monotone world
  /\ cutoff1h = Add (clock world 0) (dur_neg (Threshold check1h))
  /\ fst (checkPinned world check1h "/town/rig1/polecats/alice" cutoff1h
            "rig1" a_lost ([], 0%nat) st1)
     = ([notFoundFinding "rig1" a_lost "mol-404" 7200001000000], 1%nat)
  /\ Threshold check1h < 7200001000000
  /\ Forall (fun f => Threshold check1h < StaleDuration f)
       (fst (fst (scanAll world check1h "/town" ["rig1"] st0))).
Proof.
  assert (Hne : "mol-404" <> "") by discriminate.
  pose proof sample_clock_monotone as Hmono.
  split; [reflexivity|]. split; [exact Hne|]. split; [reflexivity|].
  split; [exact Hmono|]. split; [reflexivity|].
  destruct (unresolvable_reference_is_a_finding world check1h
              "/town/rig1/polecats/alice" cutoff1h "rig1" a_lost
              ([], 0%nat) st1 {| AttachedMolecule := "mol-404" |}
              eq_refl Hne eq_refl)
    as (Hout & _ & _ & Hbig & Hscan).
  destruct (Hbig 0%nat Hmono ltac:(repeat constructor) eq_refl
              ltac:(reflexivity) ltac:(vm_compute; discriminate))
    as (Hd & Hlt).
  split; [exact Hout|]. split; [exact Hlt|].
  apply (Hscan "/town" ["rig1"] st0 Hmono); [reflexivity|].
  vm_compute. discriminate.
Defined.

(** Alice's store: four anchors, three with a reference, two findings. *)
Lemma checked_count_is_attached_anchors_witness :
  beads_List world (filepath_Dir world "/town/rig1/polecats/alice/.beads")
    {| opt_Status := StatusPinned; opt_Priority := -1 |}
  = Ok [a_stuck; a_plain; a_lost; a_garbled]
  /\ exists stale s',
       checkBeadsDirWithContext world check1h "/town/rig1"
         "/town/rig1/polecats/alice/.beads" cutoff1h "rig1" "alice" st1
       = (Ok (stale, 3%nat), s')
       /\ (List.length stale <= 3)%nat.
Proof.
  split; [reflexivity|].
  destruct (checked_count_is_attached_anchors world check1h "/town/rig1"
              "/town/rig1/polecats/alice/.beads" cutoff1h "rig1" "alice"
              [a_stuck; a_plain; a_lost; a_garbled] st1 eq_refl)
    as (stale & s' & E & _ & Hlen & _).
  exists stale, s'. split; [exact E|exact Hlen].
Defined.

(** Alice's anchor on a unit whose timestamp is "not-a-date". *)
Lemma unparseable_timestamp_counted_not_reported_witness :
  ParseAttachmentFields world a_garbled
  = Some {| AttachedMolecule := "mol-bad" |}
  /\ "mol-bad" <> ""
  /\ beads_Show world "/town/rig1/polecats/alice" "mol-bad" = Ok m_garbled
  /\ snd (parseTimestamp world (UpdatedAt m_garbled)) <> None
  /\ fst (checkPinned world check1h "/town/rig1/polecats/alice" cutoff1h
            "rig1" a_garbled ([], 0%nat) st1)
     = ([], 1%nat).
Proof.
  assert (Hne : "mol-bad" <> "") by discriminate.
  assert (Hp : snd (parseTimestamp world (UpdatedAt m_garbled)) <> None)
    by discriminate.
  split; [reflexivity|]. split; [exact Hne|]. split; [reflexivity|].
  split; [exact Hp|].
  exact (unparseable_timestamp_counted_not_reported world check1h
           "/town/rig1/polecats/alice" cutoff1h "rig1" a_garbled
           ([], 0%nat) st1 {| AttachedMolecule := "mol-bad" |} m_garbled
           eq_refl Hne eq_refl Hp).
Defined.

(** The report for one finding, for none out of two checked, and for a
    named rig. *)
Lemma report_is_rendering_of_findings_and_count_witness :
  (let r := render world check1h
              [staleFinding "" a_ancient m_ancient 0 (2 * Hour)] 1 in
   Status r = StatusWarning
   /\ Message r = "1 stale attachment(s) found (no activity for >3600s)"
   /\ Details r
      = ["town: town hook "
           ++ bytes [195; 162; 226; 128; 160; 226; 128; 153]
           ++ " charter (assignee: mayor) (stale for 7200s)"]
   /\ FixHint r = fixHint)
  /\ Message (render world check1h [] 2)
     = "Checked 2 attachment(s), none stale"
  /\ fst (Run world check1h {| TownRoot := "/town"; RigName := "rig1" |} st0)
     = render world check1h
         (fst (fst (scanAll world check1h "/town" ["rig1"] st0)))
         (snd (fst (scanAll world check1h "/town" ["rig1"] st0))).
Proof.
  pose proof (report_is_rendering_of_findings_and_count world check1h)
    as (Hwarn & _ & Hok & _ & Hnamed & _).
  assert (Hne : [staleFinding "" a_ancient m_ancient 0 (2 * Hour)] <> [])
    by discriminate.
  destruct (Hwarn _ 1%nat Hne) as (Hs & Hm & Hd & _ & Hh).
  split.
  { cbv zeta. split; [exact Hs|]. split; [exact Hm|].
    split; [exact Hd|exact Hh]. }
  split.
  { rewrite (Hok 2%nat ltac:(repeat constructor)). reflexivity. }
  apply (Hnamed {| TownRoot := "/town"; RigName := "rig1" |} st0).
  discriminate.
Defined.

(** A named rig, even one whose glob fails. *)
Lemma named_rig_never_reports_error_witness :
  RigName {| TownRoot := "/town"; RigName := "rig1" |} <> ""
  /\ Status (fst (Run worldPolecatsFail check1h
                     {| TownRoot := "/town"; RigName := "rig1" |} st0))
     <> StatusError.
Proof.
  assert (Hn : RigName {| TownRoot := "/town"; RigName := "rig1" |} <> "")
    by discriminate.
  split; [exact Hn|].
  exact (proj1 (named_rig_never_reports_error worldPolecatsFail check1h
                  {| TownRoot := "/town"; RigName := "rig1" |} st0 Hn)).
Defined.

(** No rigs found: the town store, which holds a stale attachment, is
    not looked at. *)
Lemma no_rigs_returns_before_town_scan_witness :
  RigName {| TownRoot := "/town"; RigName := "" |} = ""
  /\ discoverRigs worldNoRigs "/town" = Ok []
  /\ (exists f,
        fst (checkBeadsDir worldNoRigs check1h "/town" "/town/.beads"
               cutoff1h st1) = Ok ([f], 1%nat))
  /\ Message (fst (Run worldNoRigs check1h
                     {| TownRoot := "/town"; RigName := "" |} st0))
     = "No rigs configured"
  /\ trace (snd (Run worldNoRigs check1h
                   {| TownRoot := "/town"; RigName := "" |} st0))
     = [EvDiscover "/town"].
Proof.
  split; [reflexivity|]. split; [reflexivity|].
  split; [eexists; vm_compute; reflexivity|].
  destruct (no_rigs_returns_before_town_scan worldNoRigs check1h
              {| TownRoot := "/town"; RigName := "" |} st0 eq_refl eq_refl)
    as (Hres & Htrace & _).
  split; [rewrite Hres; reflexivity|exact Htrace].
Defined.

(** * Where the code parts from the specification *)

(** The finding's duration is not the elapsed time for a unit last
    updated on 1700-01-01: the gap to the scan, about 327 years, is more
    than a duration holds, and the finding carries the largest duration
    instead. *)
Lemma stale_duration_is_clamped_counterexample :
  let out := fst (checkPinned world check1h "/town" cutoff1h "" a_ancient
                    ([], 0%nat) st1) in
  let now := clock world (ticks st1) in
  ParseAttachmentFields world a_ancient
  = Some {| AttachedMolecule := "mol-old" |}
  /\ beads_Show world "/town" "mol-old" = Ok m_ancient
  /\ parseTimestamp world (UpdatedAt m_ancient)
     = (53615260800 * Second, None)
  /\ exists f,
       fst out = [f]
       /\ StaleDuration f = maxDuration
       /\ now - 53615260800 * Second = 10313697600001000000
       /\ StaleDuration f <> now - 53615260800 * Second.
Proof.
  cbv zeta. split; [reflexivity|]. split; [reflexivity|].
  split; [reflexivity|].
  eexists. split; [vm_compute; reflexivity|].
  split; [reflexivity|]. split; [reflexivity|].
  vm_compute. discriminate.
Defined.

(** The synthesized duration does not exceed a threshold of 2^62 ns:
    the sum wraps around and comes out negative. *)
Lemma synthesized_duration_wraps_counterexample :
  0 < Threshold checkHuge
  /\ exists f,
       In f (fst (fst (scanAll world checkHuge "/town" ["rig1"] st0)))
       /\ MoleculeID f = "mol-404"
       /\ MoleculeTitle f = "(molecule not found)"
       /\ StaleDuration f = -9223372036853775808
       /\ ~ Threshold checkHuge < StaleDuration f.
Proof.
  split; [reflexivity|].
  exists (notFoundFinding "rig1" a_lost "mol-404" (-9223372036853775808)).
  split; [vm_compute; left; reflexivity|].
  split; [reflexivity|]. split; [reflexivity|]. split; [reflexivity|].
  vm_compute. discriminate.
Defined.

(** * Further properties of the scan *)

(** ** What a scan adds does not depend on what was accumulated *)

Lemma merge_nil_l (x : list StaleAttachment * nat) : merge ([], 0%nat) x = x.
Proof. destruct x. reflexivity. Qed.

Lemma merge_nil_r (x : list StaleAttachment * nat) : merge x ([], 0%nat) = x.
Proof.
  destruct x as [l n]. unfold merge. cbn [fst snd].
  rewrite app_nil_r, Nat.add_0_r. reflexivity.
Qed.

Lemma merge_assoc (x y z : list StaleAttachment * nat) :
  merge (merge x y) z = merge x (merge y z).
Proof.
  unfold merge. cbn [fst snd]. rewrite app_assoc, Nat.add_assoc. reflexivity.
Qed.

Section Accumulate.

Variable w : World.
Variable c : StaleAttachmentsCheck.

Lemma checkPinned_acc parentDir cutoff rigName pinned acc s :
  checkPinned w c parentDir cutoff rigName pinned acc s
  = (merge acc
       (fst (checkPinned w c parentDir cutoff rigName pinned ([], 0%nat) s)),
     snd (checkPinned w c parentDir cutoff rigName pinned ([], 0%nat) s)).
Proof.
  unfold checkPinned.
  destruct (ParseAttachmentFields w pinned) as [att|];
    [|run; rewrite merge_nil_r; reflexivity].
  destruct (AttachedMolecule att =? "")%string;
    [run; rewrite merge_nil_r; reflexivity|].
  run.
  destruct (beads_Show w parentDir (AttachedMolecule att)) as [mol|e]; run.
  - destruct (parseTimestamp w (UpdatedAt mol)) as [t [e|]]; run.
    + unfold merge. cbn [fst snd]. rewrite app_nil_r, Nat.add_1_r.
      reflexivity.
    + destruct ((Beads.Status mol =? "in_progress")%string && Before t cutoff);
        run; unfold merge; cbn [fst snd app];
        rewrite ?app_nil_r, Nat.add_1_r; reflexivity.
  - unfold merge. cbn [fst snd app]. rewrite Nat.add_1_r. reflexivity.
Qed.

Lemma scanPinned_acc parentDir cutoff rigName issues :
  forall acc s,
    scanPinned w c parentDir cutoff rigName issues acc s
    = (merge acc
         (fst (scanPinned w c parentDir cutoff rigName issues ([], 0%nat) s)),
       snd (scanPinned w c parentDir cutoff rigName issues ([], 0%nat) s)).
Proof.
  induction issues as [|p rest IH]; intros acc s; cbn [scanPinned].
  - run. rewrite merge_nil_r. reflexivity.
  - unfold bind. rewrite (checkPinned_acc parentDir cutoff rigName p acc s).
    destruct (checkPinned w c parentDir cutoff rigName p ([], 0%nat) s)
      as [x1 s1].
    cbn [fst snd]. rewrite (IH (merge acc x1) s1), (IH x1 s1).
    cbn [fst snd]. rewrite merge_assoc. reflexivity.
Qed.

Lemma scanStores_acc rigPath cutoff rigName label dirs :
  forall acc s,
    scanStores w c rigPath cutoff rigName label dirs acc s
    = (merge acc
         (fst (scanStores w c rigPath cutoff rigName label dirs
                 ([], 0%nat) s)),
       snd (scanStores w c rigPath cutoff rigName label dirs ([], 0%nat) s)).
Proof.
  induction dirs as [|d rest IH]; intros acc s; cbn [scanStores].
  - run. rewrite merge_nil_r. reflexivity.
  - unfold bind.
    destruct (checkBeadsDirWithContext w c rigPath d cutoff rigName
                (label (filepath_Base w (filepath_Dir w d))) s)
      as [[[stale n]|e] s1].
    + cbn [fst snd app Nat.add].
      rewrite (IH ((fst acc ++ stale)%list, (snd acc + n)%nat) s1).
      rewrite (IH (stale, n) s1).
      cbn [fst snd]. rewrite <- merge_assoc. reflexivity.
    + apply IH.
Qed.

Lemma scanRigs_acc townRoot cutoff rigs :
  forall acc s,
    scanRigs w c townRoot cutoff rigs acc s
    = (merge acc (fst (scanRigs w c townRoot cutoff rigs ([], 0%nat) s)),
       snd (scanRigs w c townRoot cutoff rigs ([], 0%nat) s)).
Proof.
  induction rigs as [|r rest IH]; intros acc s; cbn [scanRigs].
  - run. rewrite merge_nil_r. reflexivity.
  - unfold bind.
    destruct (checkRig w c townRoot r cutoff s) as [[[stale n]|e] s1].
    + cbn [fst snd app Nat.add].
      rewrite (IH ((fst acc ++ stale)%list, (snd acc + n)%nat) s1).
      rewrite (IH (stale, n) s1).
      cbn [fst snd]. rewrite <- merge_assoc. reflexivity.
    + apply IH.
Qed.

Lemma scanRigs_app townRoot cutoff l1 l2 :
  forall acc s,
    scanRigs w c townRoot cutoff (l1 ++ l2) acc s
    = scanRigs w c townRoot cutoff l2
        (fst (scanRigs w c townRoot cutoff l1 acc s))
        (snd (scanRigs w c townRoot cutoff l1 acc s)).
Proof.
  induction l1 as [|r rest IH]; intros acc s; [reflexivity|].
  cbn [app scanRigs]. unfold bind.
  destruct (checkRig w c townRoot r cutoff s) as [[[stale n]|e] s1];
    apply IH.
Qed.

(** One rig, then the rest: the scan of a list of rigs is the first
    rig's contribution followed by the scan of the others from the state
    the first one left. *)
Lemma scanRigs_cons townRoot cutoff r rest s :
  scanRigs w c townRoot cutoff (r :: rest) ([], 0%nat) s
  = (merge (contrib (fst (checkRig w c townRoot r cutoff s)))
       (fst (scanRigs w c townRoot cutoff rest ([], 0%nat)
               (snd (checkRig w c townRoot r cutoff s)))),
     snd (scanRigs w c townRoot cutoff rest ([], 0%nat)
            (snd (checkRig w c townRoot r cutoff s)))).
Proof.
  cbn [scanRigs]. unfold bind.
  destruct (checkRig w c townRoot r cutoff s) as [[[stale n]|e] s1];
    cbn [fst snd contrib].
  - rewrite scanRigs_acc. reflexivity.
  - rewrite merge_nil_l.
    destruct (scanRigs w c townRoot cutoff rest ([], 0%nat) s1). reflexivity.
Qed.

Lemma scanStores_cons rigPath cutoff rigName label d rest s :
  let one := checkBeadsDirWithContext w c rigPath d cutoff rigName
               (label (filepath_Base w (filepath_Dir w d))) s in
  scanStores w c rigPath cutoff rigName label (d :: rest) ([], 0%nat) s
  = (merge (contrib (fst one))
       (fst (scanStores w c rigPath cutoff rigName label rest ([], 0%nat)
               (snd one))),
     snd (scanStores w c rigPath cutoff rigName label rest ([], 0%nat)
            (snd one))).
Proof.
  intros one. subst one. cbn [scanStores]. unfold bind.
  destruct (checkBeadsDirWithContext w c rigPath d cutoff rigName
              (label (filepath_Base w (filepath_Dir w d))) s)
    as [[[stale n]|e] s1]; cbn [fst snd contrib].
  - rewrite scanStores_acc. reflexivity.
  - rewrite merge_nil_l.
    destruct (scanStores w c rigPath cutoff rigName label rest ([], 0%nat) s1).
    reflexivity.
Qed.

Lemma scanPinned_cons parentDir cutoff rigName p rest s :
  let one := checkPinned w c parentDir cutoff rigName p ([], 0%nat) s in
  scanPinned w c parentDir cutoff rigName (p :: rest) ([], 0%nat) s
  = (merge (fst one)
       (fst (scanPinned w c parentDir cutoff rigName rest ([], 0%nat)
               (snd one))),
     snd (scanPinned w c parentDir cutoff rigName rest ([], 0%nat)
            (snd one))).
Proof.
  intros one. subst one. cbn [scanPinned]. unfold bind.
  destruct (checkPinned w c parentDir cutoff rigName p ([], 0%nat) s)
    as [x1 s1].
  cbn [fst snd]. rewrite scanPinned_acc. reflexivity.
Qed.

End Accumulate.

(** ** Lifting a property of one anchor to the whole scan *)

Section ScanInvariant.

Variable w : World.
Variable c : StaleAttachmentsCheck.
Variable cutoff : Time.

(** [A] holds of every listed anchor, [R] of every rig label in use, and
    [Q s s' x] relates the states before and after a piece of the scan to
    what it contributed. *)
Variable A : Issue -> Prop.
Variable R : string -> Prop.
Variable Q : St -> St -> list StaleAttachment * nat -> Prop.

Hypothesis listed :
  forall dir opts issues, beads_List w dir opts = Ok issues -> Forall A issues.
Hypothesis Q_refl : forall s, Q s s ([], 0%nat).
Hypothesis Q_trans :
  forall s1 s2 s3 x y, Q s1 s2 x -> Q s2 s3 y -> Q s1 s3 (merge x y).
Hypothesis Q_log :
  forall s e, isShow e = false -> isDiscover e = false ->
              Q s (logged s e) ([], 0%nat).
Hypothesis Q_step :
  forall parentDir rigName pinned s,
    A pinned -> R rigName ->
    Q s (snd (checkPinned w c parentDir cutoff rigName pinned ([], 0%nat) s))
        (fst (checkPinned w c parentDir cutoff rigName pinned ([], 0%nat) s)).

Lemma scanPinned_inv parentDir rigName issues :
  Forall A issues -> R rigName ->
  forall s,
    Q s (snd (scanPinned w c parentDir cutoff rigName issues ([], 0%nat) s))
        (fst (scanPinned w c parentDir cutoff rigName issues ([], 0%nat) s)).
Proof.
  intros HA HR. induction HA as [|p rest Hp Hrest IH]; intros s.
  - apply Q_refl.
  - rewrite scanPinned_cons. cbn [fst snd].
    eapply Q_trans; [apply Q_step; assumption|apply IH].
Qed.

Lemma checkBeadsDir_inv workDir beadsDir rigName workerName s :
  R rigName ->
  Q s (snd (checkBeadsDirWithContext w c workDir beadsDir cutoff rigName
              workerName s))
      (contrib (fst (checkBeadsDirWithContext w c workDir beadsDir cutoff
                       rigName workerName s))).
Proof.
  intros HR. unfold checkBeadsDirWithContext. run.
  pose proof (Q_log s (EvList (filepath_Dir w beadsDir)) eq_refl eq_refl)
    as Hlog. unfold logged in Hlog.
  destruct (beads_List w (filepath_Dir w beadsDir)
              {| opt_Status := StatusPinned; opt_Priority := -1 |})
    as [issues|e] eqn:HL; run; [|exact Hlog].
  pose proof (scanPinned_inv (filepath_Dir w beadsDir) rigName issues
                (listed _ _ _ HL) HR
                {| ticks := ticks s;
                   trace := (trace s ++ [EvList (filepath_Dir w beadsDir)])%list
                |}) as Hscan.
  destruct (scanPinned w c (filepath_Dir w beadsDir) cutoff rigName issues
              ([], 0%nat)
              {| ticks := ticks s;
                 trace := (trace s ++ [EvList (filepath_Dir w beadsDir)])%list
              |}) as [x s1].
  cbn [fst snd contrib] in *.
  rewrite <- (merge_nil_l x). eapply Q_trans; eassumption.
Qed.

Lemma scanStores_inv rigPath rigName label dirs :
  R rigName ->
  forall s,
    Q s (snd (scanStores w c rigPath cutoff rigName label dirs ([], 0%nat) s))
        (fst (scanStores w c rigPath cutoff rigName label dirs ([], 0%nat) s)).
Proof.
  intros HR. induction dirs as [|d rest IH]; intros s.
  - apply Q_refl.
  - rewrite scanStores_cons. cbn [fst snd].
    eapply Q_trans; [apply checkBeadsDir_inv; exact HR|apply IH].
Qed.

Lemma checkRig_inv townRoot rigName s :
  R rigName ->
  Q s (snd (checkRig w c townRoot rigName cutoff s))
      (contrib (fst (checkRig w c townRoot rigName cutoff s))).
Proof.
  intros HR. unfold checkRig. run.
  pose proof (Q_log s (EvGlob (polecatsPattern w townRoot rigName))
                eq_refl eq_refl) as Hlog1. unfold logged in Hlog1.
  destruct (filepath_Glob w (polecatsPattern w townRoot rigName))
    as [dirs|e]; run; [|exact Hlog1].
  match goal with
  | |- context [scanStores w c ?p cutoff rigName ?l dirs ([], 0%nat) ?st] =>
    pose proof (scanStores_inv p rigName l dirs HR st) as H1;
    destruct (scanStores w c p cutoff rigName l dirs ([], 0%nat) st)
      as [x1 s1]
  end.
  cbn [fst snd] in H1. run.
  pose proof (Q_log s1 (EvGlob (crewPattern w townRoot rigName))
                eq_refl eq_refl) as Hlog2. unfold logged in Hlog2.
  assert (Hpole : Q s s1 x1).
  { rewrite <- (merge_nil_l x1). eapply Q_trans; eassumption. }
  destruct (filepath_Glob w (crewPattern w townRoot rigName))
    as [crew|e]; run.
  - match goal with
    | |- context [scanStores w c ?p cutoff rigName ?l crew x1 ?st] =>
      rewrite (scanStores_acc w c p cutoff rigName l crew x1 st);
      pose proof (scanStores_inv p rigName l crew HR st) as H2;
      destruct (scanStores w c p cutoff rigName l crew ([], 0%nat) st)
        as [x2 s2]
    end.
    cbn [fst snd contrib] in *.
    eapply Q_trans; [exact Hpole|].
    rewrite <- (merge_nil_l x2). eapply Q_trans; eassumption.
  - cbn [fst snd contrib].
    rewrite <- (merge_nil_r x1). eapply Q_trans; eassumption.
Qed.

Lemma scanRigs_inv townRoot rigs :
  Forall R rigs ->
  forall s,
    Q s (snd (scanRigs w c townRoot cutoff rigs ([], 0%nat) s))
        (fst (scanRigs w c townRoot cutoff rigs ([], 0%nat) s)).
Proof.
  intros HR. induction HR as [|r rest Hr Hrest IH]; intros s.
  - apply Q_refl.
  - rewrite scanRigs_cons. cbn [fst snd].
    eapply Q_trans; [apply checkRig_inv; exact Hr|apply IH].
Qed.

Lemma collect_inv townRoot rigs s :
  Forall R rigs -> R "" ->
  Q s (snd (collect w c townRoot cutoff rigs s))
      (fst (collect w c townRoot cutoff rigs s)).
Proof.
  intros HR Htown. unfold collect, checkBeadsDir. unfold bind, ret.
  pose proof (scanRigs_inv townRoot rigs HR s) as H1.
  destruct (scanRigs w c townRoot cutoff rigs ([], 0%nat) s) as [x1 s1].
  pose proof (checkBeadsDir_inv townRoot
                (filepath_Join w [townRoot; ".beads"]) "" "" s1 Htown) as H2.
  destruct (checkBeadsDirWithContext w c townRoot
              (filepath_Join w [townRoot; ".beads"]) cutoff "" "" s1)
    as [[[stale n]|e] s2]; cbn [fst snd contrib] in *.
  - change ((fst x1 ++ stale)%list, (snd x1 + n)%nat)
      with (merge x1 (stale, n)).
    eapply Q_trans; eassumption.
  - rewrite <- (merge_nil_r x1). eapply Q_trans; eassumption.
Qed.

End ScanInvariant.

(** ** The three outcomes of one anchor *)

(** From an empty accumulator, one anchor is either passed over untouched,
    or counted after one fetch without a finding, or counted after one
    fetch and one clock reading with one finding. *)
Lemma checkPinned_outcomes (w : World) (c : StaleAttachmentsCheck)
    (parentDir : string) (cutoff : Time) (rigName : string) (pinned : Issue)
    (s : St) :
  let r := checkPinned w c parentDir cutoff rigName pinned ([], 0%nat) s in
  (hasAttachment w pinned = false /\ r = (([], 0%nat), s))
  \/ (hasAttachment w pinned = true
      /\ exists id, r = (([], 1%nat), logged s (EvShow parentDir id)))
  \/ (hasAttachment w pinned = true
      /\ exists id f,
           r = (([f], 1%nat),
                {| ticks := S (ticks s);
                   trace := (trace s ++ [EvShow parentDir id])%list |})
           /\ Rig f = rigName
           /\ PinnedBeadID f = ID pinned
           /\ placeholderOrOverdue cutoff f).
Proof.
  intros r. subst r. unfold hasAttachment, checkPinned.
  destruct (ParseAttachmentFields w pinned) as [att|]; [|left; auto].
  destruct (AttachedMolecule att =? "")%string; [left; auto|].
  right. run.
  destruct (beads_Show w parentDir (AttachedMolecule att)) as [mol|e]; run.
  - destruct (parseTimestamp w (UpdatedAt mol)) as [t [e|]]; run.
    + left. split; [reflexivity|]. eexists. reflexivity.
    + destruct (Beads.Status mol =? "in_progress")%string; cbn [andb];
        [|left; split; [reflexivity|]; eexists; reflexivity].
      destruct (Before t cutoff) eqn:Hb; run;
        [|left; split; [reflexivity|]; eexists; reflexivity].
      right. split; [reflexivity|]. do 2 eexists.
      split; [reflexivity|]. cbn. split; [reflexivity|].
      split; [reflexivity|]. right. apply Z.ltb_lt. exact Hb.
  - right. split; [reflexivity|]. do 2 eexists.
    split; [reflexivity|]. cbn. split; [reflexivity|].
    split; [reflexivity|]. left. split; reflexivity.
Qed.

Lemma scanAll_unfold (w : World) (c : StaleAttachmentsCheck)
    (townRoot : string) (rigs : list string) (s : St) :
  scanAll w c townRoot rigs s
  = collect w c townRoot (Add (clock w (ticks s)) (dur_neg (Threshold c)))
      rigs {| ticks := S (ticks s); trace := trace s |}.
Proof. reflexivity. Qed.

Lemma Forall_True {X : Type} (l : list X) : Forall (fun _ => True) l.
Proof. induction l; constructor; auto. Qed.

Lemma listed_True (w : World) :
  forall dir opts issues,
    beads_List w dir opts = Ok issues -> Forall (fun _ : Issue => True) issues.
Proof. intros. apply Forall_True. Qed.

(** ** Whole-scan invariants *)

Lemma scanAll_findings_le_checked (w : World) (c : StaleAttachmentsCheck)
    (townRoot : string) (rigs : list string) (s : St) :
  (List.length (fst (fst (scanAll w c townRoot rigs s)))
   <= snd (fst (scanAll w c townRoot rigs s)))%nat.
Proof.
  rewrite scanAll_unfold.
  apply (collect_inv w c _ (fun _ => True) (fun _ => True)
           (fun _ _ x => (List.length (fst x) <= snd x)%nat)
           (listed_True w)).
  - intros s0. cbn. lia.
  - intros s1 s2 s3 x y Hx Hy. unfold merge. cbn [fst snd].
    rewrite List.length_app. lia.
  - intros s0 e _ _. cbn. lia.
  - intros parentDir rigName pinned s0 _ _.
    destruct (checkPinned_outcomes w c parentDir
                (Add (clock w (ticks s)) (dur_neg (Threshold c)))
                rigName pinned s0)
      as [[_ E]|[[_ [id E]]|[_ (id & f & E & _)]]];
      rewrite E; cbn; lia.
  - apply Forall_True.
  - exact I.
Qed.

(** X3.  Over a whole scan the findings are never more than the
    checked-count, each finding belonging to a counted anchor; a scan with
    a finding has a positive checked-count. *)
Theorem findings_never_exceed_checked (w : World) (c : StaleAttachmentsCheck)
    (townRoot : string) (rigs : list string) (s : St) :
  (List.length (fst (fst (scanAll w c townRoot rigs s)))
   <= snd (fst (scanAll w c townRoot rigs s)))%nat
  /\ (fst (fst (scanAll w c townRoot rigs s)) <> [] ->
      (0 < snd (fst (scanAll w c townRoot rigs s)))%nat).
Proof.
  pose proof (scanAll_findings_le_checked w c townRoot rigs s) as H.
  split; [exact H|]. intros Hne.
  destruct (fst (fst (scanAll w c townRoot rigs s))); [congruence|].
  cbn [List.length] in H. lia.
Qed.

(** X4.  Over a whole scan the clock is read once to set the cutoff and
    then exactly once per finding: anchors that give no finding never
    read it. *)
Theorem clock_read_once_per_finding (w : World) (c : StaleAttachmentsCheck)
    (townRoot : string) (rigs : list string) (s : St) :
  ticks (snd (scanAll w c townRoot rigs s))
  = (ticks s + 1
     + List.length (fst (fst (scanAll w c townRoot rigs s))))%nat.
Proof.
  rewrite scanAll_unfold.
  pose proof
    (collect_inv w c (Add (clock w (ticks s)) (dur_neg (Threshold c)))
       (fun _ => True) (fun _ => True)
       (fun s1 s2 x => ticks s2 = (ticks s1 + List.length (fst x))%nat)
       (listed_True w)) as H.
  rewrite H.
  - cbn [ticks]. lia.
  - intros s0. cbn. lia.
  - intros s1 s2 s3 x y Hx Hy. unfold merge. cbn [fst snd].
    rewrite List.length_app. lia.
  - intros s0 e _ _. cbn. lia.
  - intros parentDir rigName pinned s0 _ _.
    destruct (checkPinned_outcomes w c parentDir
                (Add (clock w (ticks s)) (dur_neg (Threshold c)))
                rigName pinned s0)
      as [[_ E]|[[_ [id E]]|[_ (id & f & E & _)]]];
      rewrite E; cbn; lia.
  - apply Forall_True.
  - exact I.
Qed.

(** X5.  Over a whole scan the calls appended to the log contain exactly
    as many fetches as the checked-count, and no discovery call: every
    counted anchor is fetched once, and nothing else is fetched. *)
Theorem one_fetch_per_checked_anchor (w : World) (c : StaleAttachmentsCheck)
    (townRoot : string) (rigs : list string) (s : St) :
  exists evs,
    trace (snd (scanAll w c townRoot rigs s)) = (trace s ++ evs)%list
    /\ countShows evs = snd (fst (scanAll w c townRoot rigs s))
    /\ Forall (fun e => isDiscover e = false) evs.
Proof.
  rewrite scanAll_unfold.
  refine (collect_inv w c (Add (clock w (ticks s)) (dur_neg (Threshold c)))
            (fun _ => True) (fun _ => True)
            (fun s1 s2 x =>
               exists evs,
                 trace s2 = (trace s1 ++ evs)%list
                 /\ countShows evs = snd x
                 /\ Forall (fun e => isDiscover e = false) evs)
            (listed_True w) _ _ _ _ townRoot rigs
            {| ticks := S (ticks s); trace := trace s |} _ _).
  - intros s0. exists []. rewrite app_nil_r. repeat split. constructor.
  - intros s1 s2 s3 x y (e1 & T1 & C1 & F1) (e2 & T2 & C2 & F2).
    exists (e1 ++ e2)%list. rewrite T2, T1, app_assoc.
    split; [reflexivity|]. split; [|apply Forall_app; auto].
    unfold countShows in *. rewrite filter_app, List.length_app.
    unfold merge. cbn [snd]. lia.
  - intros s0 e Hs Hd. exists [e]. split; [reflexivity|].
    split; [unfold countShows; cbn; rewrite Hs; reflexivity|].
    constructor; [exact Hd|constructor].
  - intros parentDir rigName pinned s0 _ _.
    destruct (checkPinned_outcomes w c parentDir
                (Add (clock w (ticks s)) (dur_neg (Threshold c)))
                rigName pinned s0)
      as [[_ E]|[[_ [id E]]|[_ (id & f & E & _)]]];
      rewrite E; cbn [fst snd trace logged].
    + exists []. rewrite app_nil_r. repeat split. constructor.
    + exists [EvShow parentDir id]. repeat split.
      constructor; [reflexivity|constructor].
    + exists [EvShow parentDir id]. repeat split.
      constructor; [reflexivity|constructor].
  - apply Forall_True.
  - exact I.
Qed.

(** X6.  Every finding of a whole scan is of one of the two kinds the
    resolver builds: the placeholder for an unresolvable reference, with
    the zero time, or a unit whose parsed last-updated time is strictly
    before the cutoff the scan set from its first clock reading. *)
Theorem findings_are_placeholder_or_overdue (w : World)
    (c : StaleAttachmentsCheck) (townRoot : string) (rigs : list string)
    (s : St) :
  Forall (placeholderOrOverdue
            (Add (clock w (ticks s)) (dur_neg (Threshold c))))
    (fst (fst (scanAll w c townRoot rigs s))).
Proof.
  rewrite scanAll_unfold.
  refine (collect_inv w c (Add (clock w (ticks s)) (dur_neg (Threshold c)))
            (fun _ => True) (fun _ => True)
            (fun _ _ x =>
               Forall (placeholderOrOverdue
                         (Add (clock w (ticks s)) (dur_neg (Threshold c))))
                 (fst x))
            (listed_True w) _ _ _ _ townRoot rigs
            {| ticks := S (ticks s); trace := trace s |} _ _).
  - intros s0. constructor.
  - intros s1 s2 s3 x y Hx Hy. unfold merge. cbn [fst].
    apply Forall_app. auto.
  - intros s0 e _ _. constructor.
  - intros parentDir rigName pinned s0 _ _.
    destruct (checkPinned_outcomes w c parentDir
                (Add (clock w (ticks s)) (dur_neg (Threshold c)))
                rigName pinned s0)
      as [[_ E]|[[_ [id E]]|[_ (id & f & E & _ & _ & Hk)]]];
      rewrite E; cbn [fst]; [constructor|constructor|].
    constructor; [exact Hk|constructor].
  - apply Forall_True.
  - exact I.
Qed.

Lemma string_app_assoc (a b d : string) : (a ++ b) ++ d = a ++ (b ++ d).
Proof.
  induction a as [|ch a IH]; cbn; [reflexivity|rewrite IH; reflexivity].
Qed.

Lemma prefix_app (a b : string) : String.prefix a (a ++ b) = true.
Proof.
  induction a as [|ch a IH]; cbn.
  - destruct b; reflexivity.
  - destruct (Ascii.ascii_dec ch ch); [exact IH|congruence].
Qed.

(** X7.  Every finding of a whole scan is labelled with one of the rigs
    scanned or with the empty label of the town store, so its detail line
    starts with one of those rig names, or with "town", followed by a
    colon. *)
Theorem findings_are_labelled_by_a_scanned_rig (w : World)
    (c : StaleAttachmentsCheck) (townRoot : string) (rigs : list string)
    (s : St) :
  Forall (fun f =>
            (Rig f = "" \/ In (Rig f) rigs)
            /\ exists location,
                 (location = "town" \/ In location rigs)
                 /\ String.prefix (location ++ ": ") (detailLine w f) = true)
    (fst (fst (scanAll w c townRoot rigs s))).
Proof.
  rewrite scanAll_unfold.
  refine (collect_inv w c (Add (clock w (ticks s)) (dur_neg (Threshold c)))
            (fun _ => True) (fun r => r = "" \/ In r rigs)
            (fun _ _ x =>
               Forall (fun f =>
                 (Rig f = "" \/ In (Rig f) rigs)
                 /\ exists location,
                      (location = "town" \/ In location rigs)
                      /\ String.prefix (location ++ ": ") (detailLine w f)
                         = true)
                 (fst x))
            (listed_True w) _ _ _ _ townRoot rigs
            {| ticks := S (ticks s); trace := trace s |} _ _).
  - intros s0. constructor.
  - intros s1 s2 s3 x y Hx Hy. unfold merge. cbn [fst].
    apply Forall_app. auto.
  - intros s0 e _ _. constructor.
  - intros parentDir rigName pinned s0 _ HR.
    destruct (checkPinned_outcomes w c parentDir
                (Add (clock w (ticks s)) (dur_neg (Threshold c)))
                rigName pinned s0)
      as [[_ E]|[[_ [id E]]|[_ (id & f & E & Hrig & _)]]];
      rewrite E; cbn [fst]; [constructor|constructor|].
    constructor; [|constructor]. split.
    + rewrite Hrig. exact HR.
    + unfold detailLine. rewrite Hrig.
      destruct (String.eqb_spec rigName "") as [He|He].
      * exists "town". split; [left; reflexivity|].
        rewrite <- string_app_assoc. apply prefix_app.
      * exists rigName. split.
        -- destruct HR as [HR|HR]; [congruence|right; exact HR].
        -- rewrite <- string_app_assoc. apply prefix_app.
  - apply Forall_forall. intros r Hr. right. exact Hr.
  - left. reflexivity.
Qed.

(** X8.  When no store lists an anchor with an attachment, a whole scan
    finds nothing, counts nothing and fetches nothing, and [Run] for a
    named rig reports OK with "No attachments to check". *)
Theorem nothing_attached_nothing_to_check (w : World)
    (c : StaleAttachmentsCheck) :
  nothingAttached w ->
  (forall townRoot rigs s,
     fst (scanAll w c townRoot rigs s) = ([], 0%nat)
     /\ ticks (snd (scanAll w c townRoot rigs s)) = S (ticks s)
     /\ exists evs,
          trace (snd (scanAll w c townRoot rigs s)) = (trace s ++ evs)%list
          /\ countShows evs = 0%nat)
  /\ (forall ctx s,
        RigName ctx <> "" ->
        fst (Run w c ctx s)
        = {| Name := CheckName c; Status := StatusOK;
             Message := "No attachments to check"; Details := [];
             FixHint := "" |}).
Proof.
  intros Hnone.
  assert (Hscan : forall townRoot rigs s,
     fst (scanAll w c townRoot rigs s) = ([], 0%nat)
     /\ ticks (snd (scanAll w c townRoot rigs s)) = S (ticks s)
     /\ exists evs,
          trace (snd (scanAll w c townRoot rigs s)) = (trace s ++ evs)%list
          /\ countShows evs = 0%nat).
  { intros townRoot rigs s. rewrite scanAll_unfold.
    refine (collect_inv w c (Add (clock w (ticks s)) (dur_neg (Threshold c)))
              (fun pinned => hasAttachment w pinned = false) (fun _ => True)
              (fun s1 s2 x =>
                 x = ([], 0%nat) /\ ticks s2 = ticks s1
                 /\ exists evs,
                      trace s2 = (trace s1 ++ evs)%list
                      /\ countShows evs = 0%nat)
              Hnone _ _ _ _ townRoot rigs
              {| ticks := S (ticks s); trace := trace s |} _ _).
    - intros s0. split; [reflexivity|]. split; [reflexivity|].
      exists []. rewrite app_nil_r. auto.
    - intros s1 s2 s3 x y (Ex & Tx & e1 & T1 & C1) (Ey & Ty & e2 & T2 & C2).
      subst x y. split; [reflexivity|]. split; [congruence|].
      exists (e1 ++ e2)%list. rewrite T2, T1, app_assoc.
      split; [reflexivity|].
      unfold countShows in *. rewrite filter_app, List.length_app. lia.
    - intros s0 e Hs _. split; [reflexivity|]. split; [reflexivity|].
      exists [e]. split; [reflexivity|].
      unfold countShows. cbn. rewrite Hs. reflexivity.
    - intros parentDir rigName pinned s0 Hp _.
      rewrite (checkPinned_no_attachment w c _ _ _ _ _ _ Hp). cbn [fst snd].
      split; [reflexivity|]. split; [reflexivity|].
      exists []. rewrite app_nil_r. auto.
    - apply Forall_True.
    - exact I. }
  split; [exact Hscan|].
  intros ctx s Hn. rewrite (Run_named w c ctx s Hn). cbn [fst].
  destruct (Hscan (TownRoot ctx) [RigName ctx] s) as (E & _).
  rewrite E. reflexivity.
Qed.

(** ** The calls of one store scan *)

Lemma scanPinned_calls (w : World) (c : StaleAttachmentsCheck)
    (parentDir : string) (cutoff : Time) (rigName : string)
    (issues : list Issue) :
  forall s,
  exists shows,
    trace (snd (scanPinned w c parentDir cutoff rigName issues ([], 0%nat) s))
    = (trace s ++ shows)%list
    /\ Forall (fun e => exists id, e = EvShow parentDir id) shows
    /\ List.length shows
       = snd (fst (scanPinned w c parentDir cutoff rigName issues
                     ([], 0%nat) s)).
Proof.
  induction issues as [|p rest IH]; intros s.
  - exists []. cbn. rewrite app_nil_r. auto.
  - rewrite scanPinned_cons. cbn [fst snd].
    destruct (checkPinned_outcomes w c parentDir cutoff rigName p s)
      as [[_ E]|[[_ [id E]]|[_ (id & f & E & _)]]];
      rewrite E; cbn [fst snd merge].
    + apply IH.
    + destruct (IH (logged s (EvShow parentDir id))) as (sh & T & F & L).
      exists (EvShow parentDir id :: sh). rewrite T. cbn [trace logged].
      rewrite <- app_assoc. split; [reflexivity|].
      split; [constructor; eauto|]. cbn. rewrite L. reflexivity.
    + destruct (IH {| ticks := S (ticks s);
                      trace := (trace s ++ [EvShow parentDir id])%list |})
        as (sh & T & F & L).
      exists (EvShow parentDir id :: sh). rewrite T. cbn [trace].
      rewrite <- app_assoc. split; [reflexivity|].
      split; [constructor; eauto|]. cbn. rewrite L. reflexivity.
Qed.

Lemma checkBeadsDir_calls (w : World)
    (c : StaleAttachmentsCheck) (workDir beadsDir : string) (cutoff : Time)
    (rigName workerName : string) (s : St) :
  let dir := filepath_Dir w beadsDir in
  let r := checkBeadsDirWithContext w c workDir beadsDir cutoff rigName
             workerName s in
  exists shows,
    trace (snd r) = (trace s ++ EvList dir :: shows)%list
    /\ Forall (fun e => exists id, e = EvShow dir id) shows
    /\ List.length shows = snd (contrib (fst r))
    /\ (is_err (fst r) = true -> shows = []).
Proof.
  intros dir r. subst dir r. unfold checkBeadsDirWithContext. run.
  destruct (beads_List w (filepath_Dir w beadsDir)
              {| opt_Status := StatusPinned; opt_Priority := -1 |})
    as [issues|e]; run.
  - destruct (scanPinned_calls w c (filepath_Dir w beadsDir) cutoff rigName
                issues
                {| ticks := ticks s;
                   trace := (trace s ++ [EvList (filepath_Dir w beadsDir)])%list
                |}) as (sh & T & F & L).
    destruct (scanPinned w c (filepath_Dir w beadsDir) cutoff rigName issues
                ([], 0%nat)
                {| ticks := ticks s;
                   trace := (trace s ++ [EvList (filepath_Dir w beadsDir)])%list
                |}) as [x s1].
    cbn [fst snd trace contrib is_err] in *.
    exists sh. rewrite T, <- app_assoc.
    split; [reflexivity|]. split; [exact F|]. split; [exact L|discriminate].
  - exists []. cbn. auto.
Qed.

(** X9.  A store scan lists its store once, before anything else, and
    then fetches only from that same store, once per counted anchor; when
    the listing fails it makes no further call and reads no clock. *)
Theorem store_scan_lists_then_fetches_same_store (w : World)
    (c : StaleAttachmentsCheck) (workDir beadsDir : string) (cutoff : Time)
    (rigName workerName : string) (s : St) :
  let dir := filepath_Dir w beadsDir in
  let r := checkBeadsDirWithContext w c workDir beadsDir cutoff rigName
             workerName s in
  (exists shows,
     trace (snd r) = (trace s ++ EvList dir :: shows)%list
     /\ Forall (fun e => exists id, e = EvShow dir id) shows
     /\ List.length shows = snd (contrib (fst r)))
  /\ (is_err (fst r) = true -> snd r = logged s (EvList dir)).
Proof.
  intros dir r. subst dir r.
  destruct (checkBeadsDir_calls w c workDir beadsDir cutoff rigName
              workerName s) as (shows & T & F & L & _).
  split; [exists shows; auto|].
  intros Herr. unfold checkBeadsDirWithContext in *. revert Herr. run.
  destruct (beads_List w (filepath_Dir w beadsDir)
              {| opt_Status := StatusPinned; opt_Priority := -1 |})
    as [issues|e]; run; [|reflexivity].
  destruct (scanPinned w c (filepath_Dir w beadsDir) cutoff rigName issues
              ([], 0%nat) _) as [x s1].
  discriminate.
Qed.

(** ** The log does not steer the scan *)

Section SameTicks.

Variable w : World.
Variable c : StaleAttachmentsCheck.

Lemma checkPinned_sameTicks parentDir cutoff rigName pinned acc s s' :
  sameTicks s s' ->
  fst (checkPinned w c parentDir cutoff rigName pinned acc s)
  = fst (checkPinned w c parentDir cutoff rigName pinned acc s')
  /\ sameTicks (snd (checkPinned w c parentDir cutoff rigName pinned acc s))
       (snd (checkPinned w c parentDir cutoff rigName pinned acc s')).
Proof.
  unfold sameTicks. intros H. unfold checkPinned.
  destruct (ParseAttachmentFields w pinned) as [att|]; [|run; auto].
  destruct (AttachedMolecule att =? "")%string; [run; auto|]. run.
  destruct (beads_Show w parentDir (AttachedMolecule att)) as [mol|e]; run.
  - destruct (parseTimestamp w (UpdatedAt mol)) as [t [e|]]; run; [auto|].
    destruct ((Beads.Status mol =? "in_progress")%string && Before t cutoff);
      run; rewrite H; auto.
  - rewrite H. auto.
Qed.

Lemma scanPinned_sameTicks parentDir cutoff rigName issues :
  forall acc s s',
    sameTicks s s' ->
    fst (scanPinned w c parentDir cutoff rigName issues acc s)
    = fst (scanPinned w c parentDir cutoff rigName issues acc s')
    /\ sameTicks (snd (scanPinned w c parentDir cutoff rigName issues acc s))
         (snd (scanPinned w c parentDir cutoff rigName issues acc s')).
Proof.
  induction issues as [|p rest IH]; intros acc s s' H; cbn [scanPinned].
  - run. auto.
  - unfold bind.
    destruct (checkPinned_sameTicks parentDir cutoff rigName p acc s s' H)
      as [E T].
    destruct (checkPinned w c parentDir cutoff rigName p acc s) as [a1 s1].
    destruct (checkPinned w c parentDir cutoff rigName p acc s') as [a2 s2].
    cbn [fst snd] in *. subst a2. apply IH. exact T.
Qed.

Lemma checkBeadsDir_sameTicks workDir beadsDir cutoff rigName worker s s' :
  sameTicks s s' ->
  fst (checkBeadsDirWithContext w c workDir beadsDir cutoff rigName worker s)
  = fst (checkBeadsDirWithContext w c workDir beadsDir cutoff rigName worker
           s')
  /\ sameTicks
       (snd (checkBeadsDirWithContext w c workDir beadsDir cutoff rigName
               worker s))
       (snd (checkBeadsDirWithContext w c workDir beadsDir cutoff rigName
               worker s')).
Proof.
  intros H. unfold checkBeadsDirWithContext. run.
  destruct (beads_List w (filepath_Dir w beadsDir)
              {| opt_Status := StatusPinned; opt_Priority := -1 |})
    as [issues|e]; run; [|auto].
  match goal with
  | |- context [scanPinned w c ?d cutoff rigName issues ?a ?st] =>
    match goal with
    | |- context [scanPinned w c d cutoff rigName issues a ?st'] =>
      lazymatch st' with
      | st => fail
      | _ =>
        destruct (scanPinned_sameTicks d cutoff rigName issues a st st' H)
          as [E T];
        destruct (scanPinned w c d cutoff rigName issues a st) as [a1 s1];
        destruct (scanPinned w c d cutoff rigName issues a st') as [a2 s2]
      end
    end
  end.
  cbn [fst snd] in *. subst a2. auto.
Qed.

Lemma scanStores_sameTicks rigPath cutoff rigName label dirs :
  forall acc s s',
    sameTicks s s' ->
    fst (scanStores w c rigPath cutoff rigName label dirs acc s)
    = fst (scanStores w c rigPath cutoff rigName label dirs acc s')
    /\ sameTicks
         (snd (scanStores w c rigPath cutoff rigName label dirs acc s))
         (snd (scanStores w c rigPath cutoff rigName label dirs acc s')).
Proof.
  induction dirs as [|d rest IH]; intros acc s s' H; cbn [scanStores].
  - run. auto.
  - unfold bind.
    destruct (checkBeadsDir_sameTicks rigPath d cutoff rigName
                (label (filepath_Base w (filepath_Dir w d))) s s' H)
      as [E T].
    destruct (checkBeadsDirWithContext w c rigPath d cutoff rigName
                (label (filepath_Base w (filepath_Dir w d))) s) as [r1 s1].
    destruct (checkBeadsDirWithContext w c rigPath d cutoff rigName
                (label (filepath_Base w (filepath_Dir w d))) s') as [r2 s2].
    cbn [fst snd] in *. subst r2.
    destruct r1 as [[stale n]|e]; apply IH; exact T.
Qed.

Lemma checkRig_sameTicks townRoot rigName cutoff s s' :
  sameTicks s s' ->
  fst (checkRig w c townRoot rigName cutoff s)
  = fst (checkRig w c townRoot rigName cutoff s')
  /\ sameTicks (snd (checkRig w c townRoot rigName cutoff s))
       (snd (checkRig w c townRoot rigName cutoff s')).
Proof.
  intros H. unfold checkRig. run.
  destruct (filepath_Glob w (polecatsPattern w townRoot rigName))
    as [dirs|e]; run; [|auto].
  destruct (scanStores_sameTicks (filepath_Join w [townRoot; rigName]) cutoff
              rigName (fun n => n) dirs ([], 0%nat)
              (logged s (EvGlob (polecatsPattern w townRoot rigName)))
              (logged s' (EvGlob (polecatsPattern w townRoot rigName))) H)
    as [E T].
  unfold logged in E, T.
  destruct (scanStores w c (filepath_Join w [townRoot; rigName]) cutoff
              rigName (fun n => n) dirs ([], 0%nat)
              {| ticks := ticks s;
                 trace := (trace s
                           ++ [EvGlob (polecatsPattern w townRoot rigName)])%list
              |}) as [a1 s1].
  destruct (scanStores w c (filepath_Join w [townRoot; rigName]) cutoff
              rigName (fun n => n) dirs ([], 0%nat)
              {| ticks := ticks s';
                 trace := (trace s'
                           ++ [EvGlob (polecatsPattern w townRoot rigName)])%list
              |}) as [a2 s2].
  cbn [fst snd] in *. subst a2. run.
  destruct (filepath_Glob w (crewPattern w townRoot rigName))
    as [crew|e]; run; [|auto].
  destruct (scanStores_sameTicks (filepath_Join w [townRoot; rigName]) cutoff
              rigName (fun n => "crew/" ++ n) crew a1
              (logged s1 (EvGlob (crewPattern w townRoot rigName)))
              (logged s2 (EvGlob (crewPattern w townRoot rigName))) T)
    as [E' T'].
  unfold logged in E', T'.
  destruct (scanStores w c (filepath_Join w [townRoot; rigName]) cutoff
              rigName (fun n => "crew/" ++ n) crew a1
              {| ticks := ticks s1;
                 trace := (trace s1
                           ++ [EvGlob (crewPattern w townRoot rigName)])%list
              |}) as [b1 t1].
  destruct (scanStores w c (filepath_Join w [townRoot; rigName]) cutoff
              rigName (fun n => "crew/" ++ n) crew a1
              {| ticks := ticks s2;
                 trace := (trace s2
                           ++ [EvGlob (crewPattern w townRoot rigName)])%list
              |}) as [b2 t2].
  cbn [fst snd] in *. subst b2. auto.
Qed.

Lemma scanRigs_sameTicks townRoot cutoff rigs :
  forall acc s s',
    sameTicks s s' ->
    fst (scanRigs w c townRoot cutoff rigs acc s)
    = fst (scanRigs w c townRoot cutoff rigs acc s')
    /\ sameTicks (snd (scanRigs w c townRoot cutoff rigs acc s))
         (snd (scanRigs w c townRoot cutoff rigs acc s')).
Proof.
  induction rigs as [|r rest IH]; intros acc s s' H; cbn [scanRigs].
  - run. auto.
  - unfold bind.
    destruct (checkRig_sameTicks townRoot r cutoff s s' H) as [E T].
    destruct (checkRig w c townRoot r cutoff s) as [r1 s1].
    destruct (checkRig w c townRoot r cutoff s') as [r2 s2].
    cbn [fst snd] in *. subst r2.
    destruct r1 as [[stale n]|e]; apply IH; exact T.
Qed.

End SameTicks.

(** ** Rigs compose, and a failed rig leaves no mark *)

(** X10.  Scanning a list of rigs and then the town store gives the first
    rig's contribution (nothing, if its scan failed) followed by what the
    scan of the remaining rigs and the town store gives from the state the
    first rig left. *)
Theorem collect_is_first_rig_then_rest (w : World)
    (c : StaleAttachmentsCheck) (townRoot : string) (cutoff : Time)
    (r : string) (rest : list string) (s : St) :
  let first := checkRig w c townRoot r cutoff s in
  let others := collect w c townRoot cutoff rest (snd first) in
  collect w c townRoot cutoff (r :: rest) s
  = (merge (contrib (fst first)) (fst others), snd others).
Proof.
  intros first others. subst first others. unfold collect.
  unfold bind, ret. rewrite scanRigs_cons.
  destruct (checkRig w c townRoot r cutoff s) as [r1 s1]. cbn [fst snd].
  destruct (scanRigs w c townRoot cutoff rest ([], 0%nat) s1) as [x2 s2].
  cbn [fst snd].
  destruct (checkBeadsDir w c townRoot (filepath_Join w [townRoot; ".beads"])
              cutoff s2) as [[[stale n]|e] s3]; cbn [fst snd].
  - change ((fst x2 ++ stale)%list, (snd x2 + n)%nat)
      with (merge x2 (stale, n)).
    change ((fst (merge (contrib r1) x2) ++ stale)%list,
            (snd (merge (contrib r1) x2) + n)%nat)
      with (merge (merge (contrib r1) x2) (stale, n)).
    rewrite merge_assoc. reflexivity.
  - reflexivity.
Qed.

(** X11.  A rig whose polecats pattern fails can be taken out of the
    list of rigs, wherever it stands, without changing the findings, the
    checked-count or the number of clock readings of the whole scan. *)
Theorem failed_rig_leaves_scan_unchanged (w : World)
    (c : StaleAttachmentsCheck) (townRoot : string)
    (before : list string) (r : string) (after : list string) (s : St) :
  is_err (filepath_Glob w (polecatsPattern w townRoot r)) = true ->
  fst (scanAll w c townRoot (before ++ r :: after) s)
  = fst (scanAll w c townRoot (before ++ after) s)
  /\ ticks (snd (scanAll w c townRoot (before ++ r :: after) s))
     = ticks (snd (scanAll w c townRoot (before ++ after) s)).
Proof.
  intros Hfail.
  destruct (filepath_Glob w (polecatsPattern w townRoot r)) as [d|e] eqn:Hg;
    [discriminate|].
  rewrite !scanAll_unfold. unfold collect, checkBeadsDir.
  unfold bind, ret. rewrite !scanRigs_app.
  destruct (scanRigs w c townRoot
              (Add (clock w (ticks s)) (dur_neg (Threshold c))) before
              ([], 0%nat) {| ticks := S (ticks s); trace := trace s |})
    as [acc1 s1].
  cbn [fst snd].
  rewrite scanRigs_skips_failed_rig
    by (rewrite (checkRig_polecats_glob_failed w c _ _ _ _ _ Hg);
        reflexivity).
  rewrite (checkRig_polecats_glob_failed w c _ _ _ _ _ Hg). cbn [snd].
  assert (Hsame : sameTicks
                    (logged s1 (EvGlob (polecatsPattern w townRoot r))) s1)
    by reflexivity.
  destruct (scanRigs_sameTicks w c townRoot
              (Add (clock w (ticks s)) (dur_neg (Threshold c))) after acc1
              _ _ Hsame) as [E T].
  destruct (scanRigs w c townRoot
              (Add (clock w (ticks s)) (dur_neg (Threshold c))) after acc1
              (logged s1 (EvGlob (polecatsPattern w townRoot r))))
    as [a2 s2].
  destruct (scanRigs w c townRoot
              (Add (clock w (ticks s)) (dur_neg (Threshold c))) after acc1 s1)
    as [a3 s3].
  cbn [fst snd] in *. subst a3.
  destruct (checkBeadsDir_sameTicks w c townRoot
              (filepath_Join w [townRoot; ".beads"])
              (Add (clock w (ticks s)) (dur_neg (Threshold c))) "" ""
              s2 s3 T) as [E' T'].
  destruct (checkBeadsDirWithContext w c townRoot
              (filepath_Join w [townRoot; ".beads"])
              (Add (clock w (ticks s)) (dur_neg (Threshold c))) "" "" s2)
    as [r2 t2].
  destruct (checkBeadsDirWithContext w c townRoot
              (filepath_Join w [townRoot; ".beads"])
              (Add (clock w (ticks s)) (dur_neg (Threshold c))) "" "" s3)
    as [r3 t3].
  cbn [fst snd] in *. subst r3.
  destruct r2 as [[stale n]|e']; cbn [fst snd]; auto.
Qed.

(** ** The shape of the report *)

Section ReportShape.

Variable w : World.
Variable c : StaleAttachmentsCheck.

Lemma render_shape stale checked :
  let r := render w c stale checked in
  Name r = CheckName c
  /\ (Status r = StatusWarning <-> stale <> [])
  /\ (Status r = StatusOK <-> stale = [])
  /\ List.length (Details r) = List.length stale
  /\ (Status r = StatusOK -> FixHint r = "")
  /\ (Status r = StatusWarning -> FixHint r = fixHint).
Proof.
  destruct stale as [|f rest]; [destruct checked|]; cbn;
    repeat split; intros; try congruence; try discriminate;
    try reflexivity.
  rewrite length_map. reflexivity.
Qed.

(** X1.  Whatever happens, the result of [Run] carries the check's name
    ("stale-attachments" for a check built by the constructors).  A result
    with status OK has no details and no fix hint; one with status Warning
    has at least one detail and the fixed hint; one with status Error has
    the discovery error's text as its only detail and no hint. *)
Theorem Run_result_shape (ctx : CheckContext) (s : St) :
  let r := fst (Run w c ctx s) in
  Name r = CheckName c
  /\ (forall threshold,
        Name (fst (Run w (NewStaleAttachmentsCheckWithThreshold threshold)
                     ctx s)) = "stale-attachments")
  /\ (Status r = StatusOK -> Details r = [] /\ FixHint r = "")
  /\ (Status r = StatusWarning -> Details r <> [] /\ FixHint r = fixHint)
  /\ (Status r = StatusError ->
      exists e, discoverRigs w (TownRoot ctx) = Err e
                /\ Details r = [e] /\ FixHint r = "").
Proof.
  assert (Hshape : forall stale checked,
            let r := render w c stale checked in
            Name r = CheckName c
            /\ (Status r = StatusOK -> Details r = [] /\ FixHint r = "")
            /\ (Status r = StatusWarning ->
                Details r <> [] /\ FixHint r = fixHint)
            /\ (Status r = StatusError ->
                exists e, discoverRigs w (TownRoot ctx) = Err e
                          /\ Details r = [e] /\ FixHint r = "")).
  { intros stale checked.
    destruct stale as [|f rest]; [destruct checked|]; cbn;
      repeat split; intros; try discriminate; try reflexivity. }
  assert (Hname : forall c', Name (fst (Run w c' ctx s)) = CheckName c').
  { intros c'. unfold Run, rigsToCheck.
    destruct (RigName ctx =? "")%string; cbn [negb]; run.
    - destruct (discoverRigs w (TownRoot ctx)) as [[|r0 rigs]|e]; run;
        try reflexivity.
      destruct (scanAll w c' (TownRoot ctx) (r0 :: rigs) _) as [[st ch] s1].
      destruct st as [|f rest]; [destruct ch|]; reflexivity.
    - destruct (scanAll w c' (TownRoot ctx) [RigName ctx] s) as [[st ch] s1].
      destruct st as [|f rest]; [destruct ch|]; reflexivity. }
  intros r. subst r.
  split; [apply Hname|]. split; [intros t; apply Hname|].
  destruct (String.eqb_spec (RigName ctx) "") as [Hn|Hn].
  - destruct (discoverRigs w (TownRoot ctx)) as [[|r0 rigs]|e] eqn:Hd.
    + rewrite (Run_no_rigs w c ctx s Hn Hd). cbn.
      repeat split; intros; try discriminate; reflexivity.
    + rewrite (Run_discovered w c ctx s r0 rigs Hn Hd). cbn [fst].
      apply Hshape.
    + rewrite (Run_discovery_failed w c ctx s e Hn Hd). cbn.
      repeat split; intros; try discriminate. exists e. auto.
  - rewrite (Run_named w c ctx s Hn). cbn [fst].
    destruct (discoverRigs w (TownRoot ctx)) as [l|e] eqn:Hd.
    + apply Hshape.
    + destruct (Hshape
                  (fst (fst (scanAll w c (TownRoot ctx) [RigName ctx] s)))
                  (snd (fst (scanAll w c (TownRoot ctx) [RigName ctx] s))))
        as (_ & H2 & H3 & _).
      split; [exact H2|]. split; [exact H3|].
      intros H.
      destruct (render_not_error w c
                  (fst (fst (scanAll w c (TownRoot ctx) [RigName ctx] s)))
                  (snd (fst (scanAll w c (TownRoot ctx) [RigName ctx] s))))
        as [E|E]; congruence.
Qed.

(** X2.  Once the rigs to check are known and not empty, [Run] reports
    Warning exactly when the scan found something, with as many detail
    lines as findings, and OK otherwise; a Warning therefore always comes
    with a positive checked-count. *)
Theorem Run_warns_iff_scan_finds (ctx : CheckContext) (s s1 : St)
    (rigs : list string) :
  (RigName ctx <> "" /\ rigs = [RigName ctx] /\ s1 = s)
  \/ (RigName ctx = "" /\ rigs <> []
      /\ discoverRigs w (TownRoot ctx) = Ok rigs
      /\ s1 = logged s (EvDiscover (TownRoot ctx))) ->
  let found := fst (scanAll w c (TownRoot ctx) rigs s1) in
  let r := fst (Run w c ctx s) in
  (Status r = StatusWarning <-> fst found <> [])
  /\ (Status r = StatusOK <-> fst found = [])
  /\ List.length (Details r) = List.length (fst found)
  /\ (Status r = StatusWarning -> (0 < snd found)%nat).
Proof.
  intros Hcase found r. subst found r.
  assert (E : fst (Run w c ctx s)
              = render w c (fst (fst (scanAll w c (TownRoot ctx) rigs s1)))
                  (snd (fst (scanAll w c (TownRoot ctx) rigs s1)))).
  { destruct Hcase as [(Hn & Hr & Hs)|(Hn & Hne & Hd & Hs)]; subst.
    - rewrite (Run_named w c ctx s Hn). reflexivity.
    - destruct rigs as [|r0 rest]; [congruence|].
      rewrite (Run_discovered w c ctx s r0 rest Hn Hd). reflexivity. }
  rewrite E.
  destruct (render_shape
              (fst (fst (scanAll w c (TownRoot ctx) rigs s1)))
              (snd (fst (scanAll w c (TownRoot ctx) rigs s1))))
    as (_ & Hw & Ho & Hl & _).
  split; [exact Hw|]. split; [exact Ho|]. split; [exact Hl|].
  intros H. apply Hw in H.
  pose proof (scanAll_findings_le_checked w c (TownRoot ctx) rigs s1) as Hle.
  destruct (fst (fst (scanAll w c (TownRoot ctx) rigs s1))); [congruence|].
  cbn [List.length] in Hle. lia.
Qed.

End ReportShape.

(** ** A rig is its polecats stores, then its crew stores *)

Lemma scanStores_label (w : World) (c : StaleAttachmentsCheck)
    (rigPath : string) (cutoff : Time) (rigName : string)
    (label label' : string -> string) (dirs : list string) :
  forall acc s,
    scanStores w c rigPath cutoff rigName label dirs acc s
    = scanStores w c rigPath cutoff rigName label' dirs acc s.
Proof.
  induction dirs as [|d rest IH]; intros acc s; [reflexivity|].
  cbn [scanStores]. unfold bind.
  change (checkBeadsDirWithContext w c rigPath d cutoff rigName
            (label (filepath_Base w (filepath_Dir w d))) s)
    with (checkBeadsDirWithContext w c rigPath d cutoff rigName
            (label' (filepath_Base w (filepath_Dir w d))) s).
  destruct (checkBeadsDirWithContext w c rigPath d cutoff rigName
              (label' (filepath_Base w (filepath_Dir w d))) s)
    as [[[stale n]|e] s1]; apply IH.
Qed.

Lemma scanStores_app (w : World) (c : StaleAttachmentsCheck)
    (rigPath : string) (cutoff : Time) (rigName : string)
    (label : string -> string) (l1 l2 : list string) :
  forall acc s,
    scanStores w c rigPath cutoff rigName label (l1 ++ l2) acc s
    = scanStores w c rigPath cutoff rigName label l2
        (fst (scanStores w c rigPath cutoff rigName label l1 acc s))
        (snd (scanStores w c rigPath cutoff rigName label l1 acc s)).
Proof.
  induction l1 as [|d rest IH]; intros acc s; [reflexivity|].
  cbn [app scanStores]. unfold bind.
  destruct (checkBeadsDirWithContext w c rigPath d cutoff rigName
              (label (filepath_Base w (filepath_Dir w d))) s)
    as [[[stale n]|e] s1]; apply IH.
Qed.

(** X12.  When both patterns of a rig match, the rig's findings and
    checked-count are those of scanning its polecats stores followed by its
    crew stores as a single list, under any worker labelling: the worker
    name derived from a store's path, with or without the crew prefix,
    leaves no trace in the result. *)
Theorem checkRig_is_polecats_then_crew (w : World) (c : StaleAttachmentsCheck)
    (townRoot rigName : string) (cutoff : Time) (s : St)
    (polecatDirs crewDirs : list string) (label : string -> string) :
  filepath_Glob w (polecatsPattern w townRoot rigName) = Ok polecatDirs ->
  filepath_Glob w (crewPattern w townRoot rigName) = Ok crewDirs ->
  let all := scanStores w c (filepath_Join w [townRoot; rigName]) cutoff
               rigName label (polecatDirs ++ crewDirs) ([], 0%nat) s in
  fst (checkRig w c townRoot rigName cutoff s) = Ok (fst all)
  /\ ticks (snd (checkRig w c townRoot rigName cutoff s)) = ticks (snd all).
Proof.
  intros Hp Hc all. subst all. unfold checkRig. run. rewrite Hp. run.
  rewrite scanStores_app.
  rewrite (scanStores_label w c _ cutoff rigName (fun n => n) label).
  destruct (scanStores_sameTicks w c (filepath_Join w [townRoot; rigName])
              cutoff rigName label polecatDirs ([], 0%nat)
              (logged s (EvGlob (polecatsPattern w townRoot rigName))) s
              eq_refl) as [E T].
  unfold logged in E, T.
  destruct (scanStores w c (filepath_Join w [townRoot; rigName]) cutoff
              rigName label polecatDirs ([], 0%nat)
              {| ticks := ticks s;
                 trace := (trace s
                           ++ [EvGlob (polecatsPattern w townRoot rigName)])%list
              |}) as [a1 s1].
  destruct (scanStores w c (filepath_Join w [townRoot; rigName]) cutoff
              rigName label polecatDirs ([], 0%nat) s) as [a2 s2].
  cbn [fst snd] in *. subst a2. run. rewrite Hc. run.
  rewrite (scanStores_label w c _ cutoff rigName (fun n => "crew/" ++ n)
             label).
  assert (T2 : sameTicks
                 (logged s1 (EvGlob (crewPattern w townRoot rigName))) s2)
    by exact T.
  destruct (scanStores_sameTicks w c (filepath_Join w [townRoot; rigName])
              cutoff rigName label crewDirs a1 _ _ T2) as [E' T'].
  unfold logged in E', T'.
  destruct (scanStores w c (filepath_Join w [townRoot; rigName]) cutoff
              rigName label crewDirs a1
              {| ticks := ticks s1;
                 trace := (trace s1
                           ++ [EvGlob (crewPattern w townRoot rigName)])%list
              |}) as [b1 t1].
  destruct (scanStores w c (filepath_Join w [townRoot; rigName]) cutoff
              rigName label crewDirs a1 s2) as [b2 t2].
  cbn [fst snd] in *. subst b2. split; [reflexivity|exact T'].
Qed.

(** X13.  A whole scan always ends with the town store: after the calls
    made for the rigs, none of them a discovery, it lists the store next
    to the town root and then only fetches from that store. *)
Theorem town_store_is_scanned_last (w : World) (c : StaleAttachmentsCheck)
    (townRoot : string) (rigs : list string) (s : St) :
  let townDir := filepath_Dir w (filepath_Join w [townRoot; ".beads"]) in
  exists forRigs shows,
    trace (snd (scanAll w c townRoot rigs s))
    = (trace s ++ forRigs ++ EvList townDir :: shows)%list
    /\ Forall (fun e => isDiscover e = false) forRigs
    /\ Forall (fun e => exists id, e = EvShow townDir id) shows.
Proof.
  intros townDir. subst townDir. rewrite scanAll_unfold.
  unfold collect, checkBeadsDir, bind, ret.
  destruct (noDiscovery_scanRigs w c townRoot
              (Add (clock w (ticks s)) (dur_neg (Threshold c))) rigs
              ([], 0%nat) {| ticks := S (ticks s); trace := trace s |})
    as (pre & Tpre & Fpre).
  destruct (scanRigs w c townRoot
              (Add (clock w (ticks s)) (dur_neg (Threshold c))) rigs
              ([], 0%nat) {| ticks := S (ticks s); trace := trace s |})
    as [acc s1].
  cbn [fst snd trace] in Tpre.
  destruct (checkBeadsDir_calls w c townRoot
              (filepath_Join w [townRoot; ".beads"])
              (Add (clock w (ticks s)) (dur_neg (Threshold c))) "" "" s1)
    as (shows & T & F & _).
  destruct (checkBeadsDirWithContext w c townRoot
              (filepath_Join w [townRoot; ".beads"])
              (Add (clock w (ticks s)) (dur_neg (Threshold c))) "" "" s1)
    as [[[stale n]|e] s2]; cbn [fst snd] in *;
    exists pre, shows; rewrite T, Tpre, <- app_assoc; auto.
Qed.

(** * The further properties on the sample town *)

(** An unreadable town root, and the sample town with its stuck work. *)
Lemma Run_result_shape_witness :
  Status (fst (Run world check1h
                 {| TownRoot := "/nowhere"; RigName := "" |} st0))
  = StatusError
  /\ Details (fst (Run world check1h
                     {| TownRoot := "/nowhere"; RigName := "" |} st0))
     = ["open: no such file or directory"]
  /\ Status (fst (Run world check1h
                    {| TownRoot := "/town"; RigName := "rig1" |} st0))
     = StatusWarning
  /\ FixHint (fst (Run world check1h
                     {| TownRoot := "/town"; RigName := "rig1" |} st0))
     = fixHint.
Proof.
  destruct (Run_result_shape world check1h
              {| TownRoot := "/nowhere"; RigName := "" |} st0)
    as (_ & _ & _ & _ & Herr).
  destruct (Run_result_shape world check1h
              {| TownRoot := "/town"; RigName := "rig1" |} st0)
    as (_ & _ & _ & Hwarn & _).
  destruct (Herr eq_refl) as (e & Hd & Hdet & _).
  destruct (Hwarn eq_refl) as (_ & Hhint).
  split; [reflexivity|]. split.
  { rewrite Hdet. cbn in Hd. injection Hd as Hd. rewrite Hd. reflexivity. }
  split; [reflexivity|exact Hhint].
Defined.

(** The named rig of the sample town: as many detail lines as findings. *)
Lemma Run_warns_iff_scan_finds_witness :
  RigName {| TownRoot := "/town"; RigName := "rig1" |} <> ""
  /\ Status (fst (Run world check1h
                    {| TownRoot := "/town"; RigName := "rig1" |} st0))
     = StatusWarning
  /\ List.length
       (Details (fst (Run world check1h
                        {| TownRoot := "/town"; RigName := "rig1" |} st0)))
     = List.length (fst (fst (scanAll world check1h "/town" ["rig1"] st0))).
Proof.
  assert (Hn : RigName {| TownRoot := "/town"; RigName := "rig1" |} <> "")
    by discriminate.
  destruct (Run_warns_iff_scan_finds world check1h
              {| TownRoot := "/town"; RigName := "rig1" |} st0 st0 ["rig1"]
              (or_introl (conj Hn (conj eq_refl eq_refl))))
    as (Hw & _ & Hl & _).
  split; [exact Hn|]. split; [|exact Hl].
  apply Hw. vm_compute. discriminate.
Defined.

(** The sample town has findings, hence a positive checked-count. *)
Lemma findings_never_exceed_checked_witness :
  fst (fst (scanAll world check1h "/town" ["rig1"] st0)) <> []
  /\ (0 < snd (fst (scanAll world check1h "/town" ["rig1"] st0)))%nat.
Proof.
  assert (Hne : fst (fst (scanAll world check1h "/town" ["rig1"] st0)) <> [])
    by (vm_compute; discriminate).
  split; [exact Hne|].
  exact (proj2 (findings_never_exceed_checked world check1h "/town"
                  ["rig1"] st0) Hne).
Defined.

Lemma worldPlain_nothingAttached : nothingAttached worldPlain.
Proof.
  intros dir opts issues H. cbn in H. unfold plain_List in H.
  destruct (dir =? "/town/rig1/polecats/alice")%string; [|discriminate].
  injection H as H. subst issues. repeat constructor.
Qed.

(** A town whose anchors carry no attachment. *)
Lemma nothing_attached_nothing_to_check_witness :
  nothingAttached worldPlain
  /\ RigName {| TownRoot := "/town"; RigName := "rig1" |} <> ""
  /\ fst (Run worldPlain check1h
            {| TownRoot := "/town"; RigName := "rig1" |} st0)
     = {| Name := "stale-attachments"; Status := StatusOK;
          Message := "No attachments to check"; Details := [];
          FixHint := "" |}.
Proof.
  assert (Hn : RigName {| TownRoot := "/town"; RigName := "rig1" |} <> "")
    by discriminate.
  split; [exact worldPlain_nothingAttached|]. split; [exact Hn|].
  exact (proj2 (nothing_attached_nothing_to_check worldPlain check1h
                  worldPlain_nothingAttached)
           {| TownRoot := "/town"; RigName := "rig1" |} st0 Hn).
Defined.

(** A store that cannot be listed: one call, nothing else. *)
Lemma store_scan_lists_then_fetches_same_store_witness :
  is_err (fst (checkBeadsDirWithContext world check1h "/nowhere"
                 "/nowhere/.beads" cutoff1h "" "" st1)) = true
  /\ snd (checkBeadsDirWithContext world check1h "/nowhere"
            "/nowhere/.beads" cutoff1h "" "" st1)
     = logged st1 (EvList "/nowhere").
Proof.
  split; [reflexivity|].
  exact (proj2 (store_scan_lists_then_fetches_same_store world check1h
                  "/nowhere" "/nowhere/.beads" cutoff1h "" "" st1) eq_refl).
Defined.

(** The rig whose polecats glob fails, next to a town without it. *)
Lemma failed_rig_leaves_scan_unchanged_witness :
  is_err (filepath_Glob worldPolecatsFail
            (polecatsPattern worldPolecatsFail "/town" "rig1")) = true
  /\ fst (scanAll worldPolecatsFail check1h "/town" ["rig1"] st0)
     = fst (scanAll worldPolecatsFail check1h "/town" [] st0).
Proof.
  split; [reflexivity|].
  exact (proj1 (failed_rig_leaves_scan_unchanged worldPolecatsFail check1h
                  "/town" [] "rig1" [] st0 eq_refl)).
Defined.

(** The sample rig: alice's store, then bob's. *)
Lemma checkRig_is_polecats_then_crew_witness :
  filepath_Glob world (polecatsPattern world "/town" "rig1")
  = Ok ["/town/rig1/polecats/alice/.beads"]
  /\ filepath_Glob world (crewPattern world "/town" "rig1")
     = Ok ["/town/rig1/crew/bob/.beads"]
  /\ fst (checkRig world check1h "/town" "rig1" cutoff1h st1)
     = Ok (fst (scanStores world check1h "/town/rig1" cutoff1h "rig1"
                  (fun n => n)
                  ["/town/rig1/polecats/alice/.beads";
                   "/town/rig1/crew/bob/.beads"] ([], 0%nat) st1)).
Proof.
  split; [reflexivity|]. split; [reflexivity|].
  exact (proj1 (checkRig_is_polecats_then_crew world check1h "/town" "rig1"
                  cutoff1h st1 ["/town/rig1/polecats/alice/.beads"]
                  ["/town/rig1/crew/bob/.beads"] (fun n => n)
                  eq_refl eq_refl)).
Defined.

(** * Errors absorbed, seen from [Run] *)

(** ** The walk visits the stores one after another *)

Section Stores.

Variable w : World.
Variable c : StaleAttachmentsCheck.
Variable cutoff : Time.

Lemma scanEach_app l1 l2 :
  forall acc s,
    scanEach w c cutoff (l1 ++ l2) acc s
    = scanEach w c cutoff l2 (fst (scanEach w c cutoff l1 acc s))
        (snd (scanEach w c cutoff l1 acc s)).
Proof.
  induction l1 as [|st rest IH]; intros acc s; [reflexivity|].
  cbn [app scanEach]. unfold bind.
  destruct (checkBeadsDirWithContext w c (ref_workDir st) (ref_beadsDir st)
              cutoff (ref_rig st) (ref_worker st) s) as [r s1].
  apply IH.
Qed.

Lemma scanEach_acc l :
  forall acc s,
    scanEach w c cutoff l acc s
    = (merge acc (fst (scanEach w c cutoff l ([], 0%nat) s)),
       snd (scanEach w c cutoff l ([], 0%nat) s)).
Proof.
  induction l as [|st rest IH]; intros acc s; cbn [scanEach].
  - run. rewrite merge_nil_r. reflexivity.
  - unfold bind.
    destruct (checkBeadsDirWithContext w c (ref_workDir st) (ref_beadsDir st)
                cutoff (ref_rig st) (ref_worker st) s) as [r s1].
    rewrite (IH (merge acc (contrib r)) s1).
    rewrite (IH (merge ([], 0%nat) (contrib r)) s1).
    cbn [fst snd]. rewrite merge_nil_l, merge_assoc. reflexivity.
Qed.

Lemma scanEach_sameTicks l :
  forall acc s s',
    sameTicks s s' ->
    fst (scanEach w c cutoff l acc s) = fst (scanEach w c cutoff l acc s')
    /\ sameTicks (snd (scanEach w c cutoff l acc s))
         (snd (scanEach w c cutoff l acc s')).
Proof.
  induction l as [|st rest IH]; intros acc s s' H; cbn [scanEach].
  - run. auto.
  - unfold bind.
    destruct (checkBeadsDir_sameTicks w c (ref_workDir st) (ref_beadsDir st)
                cutoff (ref_rig st) (ref_worker st) s s' H) as [E T].
    destruct (checkBeadsDirWithContext w c (ref_workDir st) (ref_beadsDir st)
                cutoff (ref_rig st) (ref_worker st) s) as [r1 s1].
    destruct (checkBeadsDirWithContext w c (ref_workDir st) (ref_beadsDir st)
                cutoff (ref_rig st) (ref_worker st) s') as [r2 s2].
    cbn [fst snd] in *. subst r2. apply IH. exact T.
Qed.

Lemma scanStores_as_scanEach rigPath rigName label dirs :
  forall acc s,
    scanStores w c rigPath cutoff rigName label dirs acc s
    = scanEach w c cutoff
        (map (fun d => {| ref_workDir := rigPath; ref_beadsDir := d;
                          ref_rig := rigName;
                          ref_worker :=
                            label (filepath_Base w (filepath_Dir w d)) |})
           dirs) acc s.
Proof.
  induction dirs as [|d rest IH]; intros acc s; [reflexivity|].
  cbn [map scanStores scanEach ref_workDir ref_beadsDir ref_rig ref_worker].
  unfold bind.
  destruct (checkBeadsDirWithContext w c rigPath d cutoff rigName
              (label (filepath_Base w (filepath_Dir w d))) s)
    as [[[stale n]|e] s1]; cbn [contrib].
  - apply IH.
  - rewrite merge_nil_r. apply IH.
Qed.

Lemma checkRig_as_scanEach townRoot rigName s s' :
  sameTicks s s' ->
  contrib (fst (checkRig w c townRoot rigName cutoff s))
  = fst (scanEach w c cutoff (storesOfRig w townRoot rigName) ([], 0%nat) s')
  /\ sameTicks (snd (checkRig w c townRoot rigName cutoff s))
       (snd (scanEach w c cutoff (storesOfRig w townRoot rigName)
               ([], 0%nat) s')).
Proof.
  intros H. unfold checkRig, storesOfRig. run.
  destruct (filepath_Glob w (polecatsPattern w townRoot rigName))
    as [pd|e]; run; [|cbn; auto].
  rewrite scanEach_app. rewrite !scanStores_as_scanEach.
  match goal with
  | |- context [scanEach w c cutoff ?l ([], 0%nat)
                  {| ticks := ticks s; trace := ?tr |}] =>
    destruct (scanEach_sameTicks l ([], 0%nat)
                {| ticks := ticks s; trace := tr |} s' H) as [E T];
    destruct (scanEach w c cutoff l ([], 0%nat)
                {| ticks := ticks s; trace := tr |}) as [a1 s1];
    destruct (scanEach w c cutoff l ([], 0%nat) s') as [a2 s2]
  end.
  cbn [fst snd] in *. subst a2. run.
  destruct (filepath_Glob w (crewPattern w townRoot rigName))
    as [cd|e]; run.
  - rewrite scanStores_as_scanEach.
    match goal with
    | |- context [scanEach w c cutoff ?l a1
                    {| ticks := ticks s1; trace := ?tr |}] =>
      destruct (scanEach_sameTicks l a1
                  {| ticks := ticks s1; trace := tr |} s2 T) as [E' T'];
      destruct (scanEach w c cutoff l a1
                  {| ticks := ticks s1; trace := tr |}) as [b1 t1];
      destruct (scanEach w c cutoff l a1 s2) as [b2 t2]
    end.
    cbn [fst snd contrib] in *. auto.
  - cbn [scanEach fst snd contrib]. run. auto.
Qed.

Lemma scanRigs_as_scanEach townRoot rigs :
  forall acc s s',
    sameTicks s s' ->
    fst (scanRigs w c townRoot cutoff rigs acc s)
    = fst (scanEach w c cutoff (flat_map (storesOfRig w townRoot) rigs)
             acc s')
    /\ sameTicks (snd (scanRigs w c townRoot cutoff rigs acc s))
         (snd (scanEach w c cutoff (flat_map (storesOfRig w townRoot) rigs)
                 acc s')).
Proof.
  induction rigs as [|r rest IH]; intros acc s s' H.
  - cbn. auto.
  - cbn [flat_map]. rewrite scanEach_app.
    rewrite (scanEach_acc (storesOfRig w townRoot r) acc s').
    destruct (checkRig_as_scanEach townRoot r s s' H) as [E T].
    cbn [scanRigs]. unfold bind.
    destruct (checkRig w c townRoot r cutoff s) as [res s1].
    destruct (scanEach w c cutoff (storesOfRig w townRoot r) ([], 0%nat) s')
      as [x s2].
    cbn [fst snd] in *. subst x.
    destruct res as [[stale n]|e]; cbn [contrib].
    + apply IH. exact T.
    + rewrite merge_nil_r. apply IH. exact T.
Qed.

Lemma collect_as_scanEach townRoot rigs s s' :
  sameTicks s s' ->
  fst (collect w c townRoot cutoff rigs s)
  = fst (scanEach w c cutoff (allStores w townRoot rigs) ([], 0%nat) s').
Proof.
  intros H. unfold collect, allStores, checkBeadsDir. unfold bind, ret.
  rewrite scanEach_app.
  destruct (scanRigs_as_scanEach townRoot rigs ([], 0%nat) s s' H) as [E T].
  destruct (scanRigs w c townRoot cutoff rigs ([], 0%nat) s) as [a1 s1].
  destruct (scanEach w c cutoff (flat_map (storesOfRig w townRoot) rigs)
              ([], 0%nat) s') as [a2 s2].
  cbn [fst snd] in *. subst a2.
  cbn [scanEach townStore ref_workDir ref_beadsDir ref_rig ref_worker].
  unfold bind, ret.
  destruct (checkBeadsDir_sameTicks w c townRoot
              (filepath_Join w [townRoot; ".beads"]) cutoff "" "" s1 s2 T)
    as [E' T'].
  destruct (checkBeadsDirWithContext w c townRoot
              (filepath_Join w [townRoot; ".beads"]) cutoff "" "" s1)
    as [r1 t1].
  destruct (checkBeadsDirWithContext w c townRoot
              (filepath_Join w [townRoot; ".beads"]) cutoff "" "" s2)
    as [r2 t2].
  cbn [fst snd] in *. subst r2.
  destruct r1 as [[stale n]|e]; cbn [fst snd contrib].
  - reflexivity.
  - rewrite merge_nil_r. reflexivity.
Qed.

(** A store whose listing fails can be left out of the stores to scan. *)
Lemma scanEach_drop_failed_store l1 st l2 :
  listFails w st ->
  forall acc s,
    fst (scanEach w c cutoff (l1 ++ st :: l2) acc s)
    = fst (scanEach w c cutoff (l1 ++ l2) acc s).
Proof.
  unfold listFails. intros Hfail acc s. rewrite !scanEach_app.
  destruct (scanEach w c cutoff l1 acc s) as [a1 s1]. cbn [fst snd].
  cbn [scanEach]. unfold bind.
  destruct (beads_List w (filepath_Dir w (ref_beadsDir st))
              {| opt_Status := StatusPinned; opt_Priority := -1 |})
    as [issues|e] eqn:HL; [discriminate|].
  rewrite (checkBeadsDir_list_failure w c _ _ _ _ _ _ _ HL).
  cbn [contrib]. rewrite merge_nil_r.
  apply (scanEach_sameTicks l2 a1). reflexivity.
Qed.

End Stores.

(** A rig whose polecats pattern is rejected has no store to visit. *)
Lemma allStores_drop_failed_rig (w : World) (townRoot : string)
    (before : list string) (r : string) (after : list string) :
  is_err (filepath_Glob w (polecatsPattern w townRoot r)) = true ->
  allStores w townRoot (before ++ r :: after)
  = allStores w townRoot (before ++ after).
Proof.
  intros H. unfold allStores. rewrite !flat_map_app. cbn [flat_map].
  unfold storesOfRig at 2.
  destruct (filepath_Glob w (polecatsPattern w townRoot r));
    [discriminate|reflexivity].
Qed.

Lemma checkRig_err_iff (w : World) (c : StaleAttachmentsCheck)
    (townRoot rigName : string) (cutoff : Time) (s : St) :
  is_err (fst (checkRig w c townRoot rigName cutoff s)) = true
  <-> is_err (filepath_Glob w (polecatsPattern w townRoot rigName)) = true.
Proof.
  unfold checkRig. run.
  destruct (filepath_Glob w (polecatsPattern w townRoot rigName))
    as [pd|e]; run; [|cbn; tauto].
  match goal with
  | |- context [scanStores w c ?p cutoff rigName ?l pd ?a ?st] =>
    destruct (scanStores w c p cutoff rigName l pd a st) as [a1 s1]
  end.
  run.
  destruct (filepath_Glob w (crewPattern w townRoot rigName)) as [cd|e]; run.
  - match goal with
    | |- context [scanStores w c ?p cutoff rigName ?l cd ?a ?st] =>
      destruct (scanStores w c p cutoff rigName l cd a st) as [a2 s2]
    end.
    cbn. tauto.
  - cbn. tauto.
Qed.

Lemma checkBeadsDir_err_iff (w : World) (c : StaleAttachmentsCheck)
    (workDir beadsDir : string) (cutoff : Time) (rigName worker : string)
    (s : St) :
  is_err (fst (checkBeadsDirWithContext w c workDir beadsDir cutoff rigName
                 worker s)) = true
  <-> is_err (beads_List w (filepath_Dir w beadsDir)
                {| opt_Status := StatusPinned; opt_Priority := -1 |}) = true.
Proof.
  unfold checkBeadsDirWithContext. run.
  destruct (beads_List w (filepath_Dir w beadsDir)
              {| opt_Status := StatusPinned; opt_Priority := -1 |})
    as [issues|e]; run; [|cbn; tauto].
  destruct (scanPinned w c (filepath_Dir w beadsDir) cutoff rigName issues
              ([], 0%nat) _) as [a s1].
  cbn. tauto.
Qed.

(** ** [Run] is the rendering of the scan of every store *)

Section RunStores.

Variable w : World.
Variable c : StaleAttachmentsCheck.

Lemma Run_is_render_of_scanAll ctx s rigs s1 :
  rigsResolved w ctx s rigs s1 ->
  fst (Run w c ctx s)
  = render w c (fst (fst (scanAll w c (TownRoot ctx) rigs s1)))
      (snd (fst (scanAll w c (TownRoot ctx) rigs s1))).
Proof.
  intros [(Hn & Hr & Hs)|(Hn & Hne & Hd & Hs)]; subst.
  - rewrite (Run_named w c ctx s Hn). reflexivity.
  - destruct rigs as [|r0 rest]; [congruence|].
    rewrite (Run_discovered w c ctx s r0 rest Hn Hd). reflexivity.
Qed.

Lemma scanAll_as_scanEach townRoot rigs s :
  fst (scanAll w c townRoot rigs s)
  = fst (scanEach w c (cutoffAt w c s) (allStores w townRoot rigs)
           ([], 0%nat) (ticked s)).
Proof.
  rewrite scanAll_unfold. apply collect_as_scanEach. reflexivity.
Qed.

Lemma Run_is_render_of_scanEach ctx s rigs s1 :
  rigsResolved w ctx s rigs s1 ->
  fst (Run w c ctx s)
  = render w c
      (fst (fst (scanEach w c (cutoffAt w c s1)
                   (allStores w (TownRoot ctx) rigs) ([], 0%nat)
                   (ticked s1))))
      (snd (fst (scanEach w c (cutoffAt w c s1)
                   (allStores w (TownRoot ctx) rigs) ([], 0%nat)
                   (ticked s1)))).
Proof.
  intros H. rewrite (Run_is_render_of_scanAll ctx s rigs s1 H).
  rewrite scanAll_as_scanEach. reflexivity.
Qed.

Lemma Run_skips_failed_rig ctx s rigs s1 before r after :
  rigsResolved w ctx s rigs s1 ->
  rigs = (before ++ r :: after)%list ->
  is_err (filepath_Glob w (polecatsPattern w (TownRoot ctx) r)) = true ->
  fst (Run w c ctx s)
  = render w c
      (fst (fst (scanAll w c (TownRoot ctx) (before ++ after) s1)))
      (snd (fst (scanAll w c (TownRoot ctx) (before ++ after) s1))).
Proof.
  intros H Hr Hfail. rewrite (Run_is_render_of_scanEach ctx s rigs s1 H).
  subst rigs. rewrite (allStores_drop_failed_rig w _ _ _ _ Hfail).
  rewrite <- scanAll_as_scanEach. reflexivity.
Qed.

Lemma Run_skips_failed_store ctx s rigs s1 l1 st l2 :
  rigsResolved w ctx s rigs s1 ->
  allStores w (TownRoot ctx) rigs = (l1 ++ st :: l2)%list ->
  listFails w st ->
  fst (Run w c ctx s)
  = render w c
      (fst (fst (scanEach w c (cutoffAt w c s1) (l1 ++ l2) ([], 0%nat)
                   (ticked s1))))
      (snd (fst (scanEach w c (cutoffAt w c s1) (l1 ++ l2) ([], 0%nat)
                   (ticked s1)))).
Proof.
  intros H Hst Hfail. rewrite (Run_is_render_of_scanEach ctx s rigs s1 H).
  rewrite Hst. rewrite (scanEach_drop_failed_store w c _ l1 st l2 Hfail).
  reflexivity.
Qed.

End RunStores.

(** C4.  [Run] is a function to one [CheckResult]; it has no error to
    hand on.  Its status is Error exactly when no rig name was given and
    rig discovery failed, and the message is then "Failed to discover
    rigs".  Once the rigs are resolved, the result of [Run] is
    the rendering of what the resolver finds and counts when run on every
    store in turn (the stores of each rig, then the town store),
    continuing past every store that fails.  A store whose listing fails,
    the town store included, can be left out of that list without
    changing the result of [Run]; a rig whose polecats pattern fails
    contributes no store, and the result of [Run] is the rendering of the
    scan of the other rigs and the town store.  These are all the errors
    there are: a rig's scan fails exactly when its polecats pattern does,
    a store's scan exactly when its listing does. *)
Theorem Run_absorbs_rig_and_store_errors (w : World)
    (c : StaleAttachmentsCheck) (ctx : CheckContext) (s : St) :
  (Status (fst (Run w c ctx s)) = StatusError
   <-> RigName ctx = "" /\ is_err (discoverRigs w (TownRoot ctx)) = true)
  /\ (Status (fst (Run w c ctx s)) = StatusError ->
      Message (fst (Run w c ctx s)) = "Failed to discover rigs")
  /\ (forall rigs s1,
        rigsResolved w ctx s rigs s1 ->
        let found := fun stores =>
          fst (scanEach w c (cutoffAt w c s1) stores ([], 0%nat)
                 (ticked s1)) in
        let stores := allStores w (TownRoot ctx) rigs in
        fst (Run w c ctx s)
        = render w c (fst (found stores)) (snd (found stores))
        /\ (forall l1 st l2,
              stores = (l1 ++ st :: l2)%list ->
              listFails w st ->
              fst (Run w c ctx s)
              = render w c (fst (found (l1 ++ l2)%list))
                  (snd (found (l1 ++ l2)%list)))
        /\ (forall before r after,
              rigs = (before ++ r :: after)%list ->
              is_err (filepath_Glob w (polecatsPattern w (TownRoot ctx) r))
              = true ->
              stores = allStores w (TownRoot ctx) (before ++ after)
              /\ fst (Run w c ctx s)
                 = render w c
                     (fst (fst (scanAll w c (TownRoot ctx) (before ++ after)
                                  s1)))
                     (snd (fst (scanAll w c (TownRoot ctx) (before ++ after)
                                  s1)))))
  /\ (forall townRoot rigName cutoff s0,
        is_err (fst (checkRig w c townRoot rigName cutoff s0)) = true
        <-> is_err (filepath_Glob w (polecatsPattern w townRoot rigName))
            = true)
  /\ (forall workDir beadsDir cutoff rigName worker s0,
        is_err (fst (checkBeadsDirWithContext w c workDir beadsDir cutoff
                       rigName worker s0)) = true
        <-> is_err (beads_List w (filepath_Dir w beadsDir)
                      {| opt_Status := StatusPinned; opt_Priority := -1 |})
            = true).
Proof.
  split; [apply Run_status_error|].
  split.
  { intros H. apply Run_status_error in H. destruct H as [Hn Hd].
    destruct (discoverRigs w (TownRoot ctx)) as [l|e] eqn:E;
      [discriminate|].
    rewrite (Run_discovery_failed w c ctx s e Hn E). reflexivity. }
  split.
  { intros rigs s1 Hres found stores. subst found stores. cbv beta.
    split; [apply Run_is_render_of_scanEach; exact Hres|].
    split.
    - intros l1 st l2 Hst Hfail.
      apply (Run_skips_failed_store w c ctx s rigs s1 l1 st l2 Hres Hst Hfail).
    - intros before r after Hr Hfail. split.
      + subst rigs. apply allStores_drop_failed_rig. exact Hfail.
      + apply (Run_skips_failed_rig w c ctx s rigs s1 before r after
                 Hres Hr Hfail). }
  split; [intros; apply checkRig_err_iff|].
  intros. apply checkBeadsDir_err_iff.
Qed.


Lemma string_app_inv_head (a x y : string) : a ++ x = a ++ y -> x = y.
Proof.
  induction a as [|ch a IH]; cbn; intros H; [exact H|].
  injection H as H. apply IH. exact H.
Qed.

(** C5, where the code parts from it.  The detail line the code builds
    has the bytes C3 A2 E2 80 A0 E2 80 99 between the two titles, not
    the arrow U+2192 (E2 86 92) of the described format; so for every
    finding the line differs from
    [<location>: <anchor title> U+2192 <unit title>...], as on the town
    finding of the sample report. *)
Theorem detail_line_separator_is_not_the_arrow :
  (forall (w : World) (sa : StaleAttachment),
     let location := if (Rig sa =? "")%string then "town" else Rig sa in
     let clause :=
       if (Assignee sa =? "")%string then ""
       else assigneeClause (Assignee sa) in
     detailLine w sa
     = location ++ ": " ++ PinnedTitle sa ++ " "
         ++ bytes [195; 162; 226; 128; 160; 226; 128; 153] ++ " "
         ++ MoleculeTitle sa ++ clause ++ " (stale for "
         ++ formatDuration w (StaleDuration sa) ++ ")"
     /\ detailLine w sa
        <> detailFormat location (PinnedTitle sa) (MoleculeTitle sa) clause
             (formatDuration w (StaleDuration sa)))
  /\ Details (render world check1h
                [staleFinding "" a_ancient m_ancient 0 (2 * Hour)] 1)
     = ["town: town hook "
          ++ bytes [195; 162; 226; 128; 160; 226; 128; 153]
          ++ " charter (assignee: mayor) (stale for 7200s)"]
  /\ Details (render world check1h
                [staleFinding "" a_ancient m_ancient 0 (2 * Hour)] 1)
     <> ["town: town hook " ++ bytes [226; 134; 146]
           ++ " charter (assignee: mayor) (stale for 7200s)"].
Proof.
  split.
  { intros w sa location clause. subst location clause.
    unfold detailLine, detailFormat, assigneeClause.
    split; [reflexivity|].
    intros H.
    apply string_app_inv_head in H. apply string_app_inv_head in H.
    apply string_app_inv_head in H. apply string_app_inv_head in H.
    vm_compute in H. discriminate H. }
  split; [reflexivity|].
  vm_compute. discriminate.
Qed.

(** ** On the rough town *)

Lemma worldRough_resolved :
  rigsResolved worldRough {| TownRoot := "/town"; RigName := "" |} st0
    ["rig["; "rig1"; "rig2"] (logged st0 (EvDiscover "/town")).
Proof.
  right. split; [reflexivity|]. split; [discriminate|].
  split; reflexivity.
Qed.

(** The rough town: discovery finds the malformed [rig[] and two rigs;
    zed's store cannot be listed.  The report is that of the stores that
    remain without zed's, and that of the rigs that remain without
    [rig[]; an unreadable town root is the one Error. *)
Lemma Run_absorbs_rig_and_store_errors_witness :
  rigsResolved worldRough {| TownRoot := "/town"; RigName := "" |} st0
    ["rig["; "rig1"; "rig2"] (logged st0 (EvDiscover "/town"))
  /\ is_err (filepath_Glob worldRough
               (polecatsPattern worldRough "/town" "rig[")) = true
  /\ listFails worldRough
       {| ref_workDir := "/town/rig1";
          ref_beadsDir := "/town/rig1/polecats/zed/.beads";
          ref_rig := "rig1"; ref_worker := "zed" |}
  /\ fst (Run worldRough check1h {| TownRoot := "/town"; RigName := "" |} st0)
     = render worldRough check1h
         (fst (fst (scanAll worldRough check1h "/town" ["rig1"; "rig2"]
                      (logged st0 (EvDiscover "/town")))))
         (snd (fst (scanAll worldRough check1h "/town" ["rig1"; "rig2"]
                      (logged st0 (EvDiscover "/town")))))
  /\ fst (Run worldRough check1h {| TownRoot := "/town"; RigName := "" |} st0)
     = render worldRough check1h
         (fst (fst (scanEach worldRough check1h
                      (cutoffAt worldRough check1h
                         (logged st0 (EvDiscover "/town")))
                      [ {| ref_workDir := "/town/rig1";
                           ref_beadsDir := "/town/rig1/polecats/alice/.beads";
                           ref_rig := "rig1"; ref_worker := "alice" |};
                        {| ref_workDir := "/town/rig1";
                           ref_beadsDir := "/town/rig1/crew/bob/.beads";
                           ref_rig := "rig1"; ref_worker := "crew/bob" |};
                        {| ref_workDir := "/town/rig2";
                           ref_beadsDir := "/town/rig2/crew/carol/.beads";
                           ref_rig := "rig2"; ref_worker := "crew/carol" |};
                        townStore worldRough "/town" ]
                      ([], 0%nat)
                      (ticked (logged st0 (EvDiscover "/town"))))))
         6
  /\ Status (fst (Run worldRough check1h
                    {| TownRoot := "/town"; RigName := "" |} st0))
     = StatusWarning
  /\ Message (fst (Run worldRough check1h
                     {| TownRoot := "/nowhere"; RigName := "" |} st0))
     = "Failed to discover rigs".
Proof.
  destruct (Run_absorbs_rig_and_store_errors worldRough check1h
              {| TownRoot := "/town"; RigName := "" |} st0)
    as (_ & _ & Hscan & _).
  destruct (Hscan _ _ worldRough_resolved) as (Hall & Hstore & Hrig).
  destruct (Run_absorbs_rig_and_store_errors worldRough check1h
              {| TownRoot := "/nowhere"; RigName := "" |} st0)
    as (Hiff & Hmsg & _).
  split; [exact worldRough_resolved|]. split; [reflexivity|].
  split; [reflexivity|].
  split.
  { exact (proj2 (Hrig [] "rig[" ["rig1"; "rig2"] eq_refl eq_refl)). }
  split.
  { rewrite (Hstore
               [ {| ref_workDir := "/town/rig1";
                    ref_beadsDir := "/town/rig1/polecats/alice/.beads";
                    ref_rig := "rig1"; ref_worker := "alice" |} ]
               {| ref_workDir := "/town/rig1";
                  ref_beadsDir := "/town/rig1/polecats/zed/.beads";
                  ref_rig := "rig1"; ref_worker := "zed" |}
               [ {| ref_workDir := "/town/rig1";
                    ref_beadsDir := "/town/rig1/crew/bob/.beads";
                    ref_rig := "rig1"; ref_worker := "crew/bob" |};
                 {| ref_workDir := "/town/rig2";
                    ref_beadsDir := "/town/rig2/crew/carol/.beads";
                    ref_rig := "rig2"; ref_worker := "crew/carol" |};
                 townStore worldRough "/town" ]
               eq_refl eq_refl).
    reflexivity. }
  split; [rewrite Hall; reflexivity|].
  apply Hmsg. apply Hiff. split; reflexivity.
Defined.


